(** * Memoised depth-first search of [main.c]: model and verification

    The program decides whether some subset of [n] items, taken in index
    order, has total price exactly [j] and total calories exactly [k].
    It explores the states [(x, y, z)] with an explicit stack of [int]s and a
    three-dimensional memo table.

    The model follows [main.c] line by line.  [int] is the 32-bit type of the
    usual ABIs: its values are integers of type [Z] and every [int] addition
    wraps around at 32 bits.  The stack is the record of the source (an
    [offset] and a [data] array); the memo table is indexed by three
    subscripts, each checked against its dimension.  Accesses that the C code
    leaves unchecked (a push on a full stack, a pop on an empty one, a
    subscript outside its array) are faults of the model, and a fault ends
    the run.  The [while] loop is a function of a number of iterations
    allowed; the results about [solve] give a number that is enough. *)

From Stdlib Require Import ZArith List Lia Bool.
From Stdlib Require String Ascii.
Import ListNotations.
Local Open Scope Z_scope.

(** ** Constants of the source *)

Definition MAX_DEPTH_X : Z := 501.
Definition MAX_DEPTH_Y : Z := 101.
Definition MAX_DEPTH_Z : Z := 101.
Definition MAX_DEPTH_STACK : Z := MAX_DEPTH_X * MAX_DEPTH_Y * MAX_DEPTH_Z.

(** Number of [int] slots of [dfs_stack_t.data]. *)
Definition STACK_SLOTS : Z := 3 * MAX_DEPTH_STACK.

(** ** The type [int] *)

Definition INT_MAX : Z := 2147483647.
Definition INT_MIN : Z := -2147483648.

(** Reduction of an integer to the 32-bit two's complement range. *)
Definition wrap_int (v : Z) : Z := (v + 2147483648) mod 4294967296 - 2147483648.

(** [a + b] on [int]. *)
Definition int_add (a b : Z) : Z := wrap_int (a + b).

(** ** Faults and the error monad *)

Inductive fault : Type :=
| StackOverflow      (* dfs_stack_push on a full stack *)
| StackUnderflow     (* dfs_stack_pop on an empty stack *)
| TableOutOfBounds   (* table[x][y][z] with a subscript outside its dimension *)
| ItemOutOfBounds.   (* prices[x] or calories[x] outside the array *)

Inductive result (A : Type) : Type :=
| Ok (a : A)
| Fault (f : fault).

Arguments Ok {A} a.
Arguments Fault {A} f.

Definition bind {A B : Type} (r : result A) (f : A -> result B) : result B :=
  match r with
  | Ok a => f a
  | Fault e => Fault e
  end.

Notation "x <- e ;; k" := (bind e (fun x => k))
  (at level 61, e at next level, right associativity).
Notation "' p <- e ;; k" := (bind e (fun p => k))
  (at level 61, p pattern, e at next level, right associativity).

(** ** The traversal stack *)

Record dfs_stack_t : Type := mk_stack {
  offset : Z;
  data : Z -> Z
}.

(** [a[i] = v] on an array seen as a map from indices to values. *)
Definition store (a : Z -> Z) (i v : Z) : Z -> Z :=
  fun i' => if i' =? i then v else a i'.

Definition dfs_stack_push (stack : dfs_stack_t) (item : Z) : result dfs_stack_t :=
  if offset stack <? STACK_SLOTS
  then Ok {| offset := offset stack + 1;
             data := store (data stack) (offset stack) item |}
  else Fault StackOverflow.

Definition dfs_stack_pop (stack : dfs_stack_t) : result (Z * dfs_stack_t) :=
  if 0 <? offset stack
  then Ok (data stack (offset stack - 1),
           {| offset := offset stack - 1; data := data stack |})
  else Fault StackUnderflow.

(** ** The memo table *)

Inductive memo_item_t : Type :=
| Unknown
| BadPath.

Definition table_t : Type := Z -> Z -> Z -> memo_item_t.

Definition in_table (x y z : Z) : bool :=
  (0 <=? x) && (x <? MAX_DEPTH_X) &&
  (0 <=? y) && (y <? MAX_DEPTH_Y) &&
  (0 <=? z) && (z <? MAX_DEPTH_Z).

Definition table_get (t : table_t) (x y z : Z) : result memo_item_t :=
  if in_table x y z then Ok (t x y z) else Fault TableOutOfBounds.

Definition mark (t : table_t) (x y z : Z) (v : memo_item_t) : table_t :=
  fun x' y' z' => if (x' =? x) && (y' =? y) && (z' =? z) then v else t x' y' z'.

Definition table_set (t : table_t) (x y z : Z) (v : memo_item_t) : result table_t :=
  if in_table x y z then Ok (mark t x y z v) else Fault TableOutOfBounds.

(** ** The item arrays *)

Definition array_get (a : list Z) (i : Z) : result Z :=
  if i <? 0 then Fault ItemOutOfBounds
  else match nth_error a (Z.to_nat i) with
       | Some v => Ok v
       | None => Fault ItemOutOfBounds
       end.

(** ** The global state and [solve] *)

(** The two globals of the source: [stack] and [table]. *)
Record machine : Type := mk_machine {
  stack : dfs_stack_t;
  table : table_t
}.

(** What one iteration of the [while] loop does: leave [solve] with a value,
    or go on with the next iteration. *)
Inductive outcome : Type :=
| Return (b : bool)
| Continue (m : machine).

(** The order in which the two successors are pushed.  The source pushes the
    Buy successor first and the Skip successor last; the other order is the
    variant that the specification compares it with. *)
Inductive push_order : Type :=
| BuyThenSkip
| SkipThenBuy.

(** The result of running [solve]. *)
Inductive run : Type :=
| Returns (b : bool)
| Faults (f : fault)
| OutOfFuel.

Section Solve.

Variable order : push_order.
Variables n j k : Z.
Variables prices calories : list Z.

(** The three pushes of a state, in the order of the source: [z], [y], [x]. *)
Definition push_state (s : dfs_stack_t) (x y z : Z) : result dfs_stack_t :=
  s <- dfs_stack_push s z ;;
  s <- dfs_stack_push s y ;;
  dfs_stack_push s x.

(** The body of the [while] loop, lines 91 to 119. *)
Definition loop_body (m : machine) : result outcome :=
  '(x, s) <- dfs_stack_pop (stack m) ;;
  '(y, s) <- dfs_stack_pop s ;;
  '(z, s) <- dfs_stack_pop s ;;
  if (x =? n) && (y =? j) && (z =? k) then Ok (Return true) else
  memo <- table_get (table m) x y z ;;
  match memo with
  | BadPath => Ok (Continue {| stack := s; table := table m |})
  | Unknown =>
    let new_x := int_add x 1 in
    s <- (if new_x <=? n then
            p <- array_get prices x ;;
            c <- array_get calories x ;;
            let new_y := int_add y p in
            let new_z := int_add z c in
            match order with
            | BuyThenSkip =>
              s <- (if (new_y <=? j) && (new_z <=? k)
                    then push_state s new_x new_y new_z
                    else Ok s) ;;
              push_state s new_x y z
            | SkipThenBuy =>
              s <- push_state s new_x y z ;;
              if (new_y <=? j) && (new_z <=? k)
              then push_state s new_x new_y new_z
              else Ok s
            end
          else Ok s) ;;
    t <- table_set (table m) x y z BadPath ;;
    Ok (Continue {| stack := s; table := t |})
  end.

(** The [while] loop, lines 90 to 121; [fuel] bounds the number of
    iterations. *)
Fixpoint solve_loop (fuel : nat) (m : machine) : run :=
  match fuel with
  | O => OutOfFuel
  | S fuel' =>
    if 0 <? offset (stack m) then
      match loop_body m with
      | Fault f => Faults f
      | Ok (Return b) => Returns b
      | Ok (Continue m') => solve_loop fuel' m'
      end
    else Returns false
  end.

(** The machine at the head of the loop, after the pushes of lines 86 to 88. *)
Definition entry (m0 : machine) : result machine :=
  s <- push_state (stack m0) 0 0 0 ;;
  Ok {| stack := s; table := table m0 |}.

Definition solve_with (fuel : nat) (m0 : machine) : run :=
  match entry m0 with
  | Fault f => Faults f
  | Ok m => solve_loop fuel m
  end.

End Solve.

(** [solve] of the source. *)
Definition solve : nat -> machine -> Z -> Z -> Z -> list Z -> list Z -> run :=
  fun fuel m0 n j k prices calories =>
    solve_with BuyThenSkip n j k prices calories fuel m0.

(** The variant of [solve] that pushes Skip before Buy. *)
Definition solve_skip_first : nat -> machine -> Z -> Z -> Z -> list Z -> list Z -> run :=
  fun fuel m0 n j k prices calories =>
    solve_with SkipThenBuy n j k prices calories fuel m0.

(** The globals as the C runtime initialises them: all zero. *)
Definition initial_machine : machine :=
  {| stack := {| offset := 0; data := fun _ => 0 |};
     table := fun _ _ _ => Unknown |}.

(** A call returns [b] when some number of iterations is enough for it. *)
Definition solve_returns (m0 : machine) (n j k : Z) (prices calories : list Z)
  (b : bool) : Prop :=
  exists fuel, solve fuel m0 n j k prices calories = Returns b.

Definition solve_skip_first_returns (m0 : machine) (n j k : Z)
  (prices calories : list Z) (b : bool) : Prop :=
  exists fuel, solve_skip_first fuel m0 n j k prices calories = Returns b.

(** ** Reading the stack as a list of states *)

Abbreviation state := (Z * Z * Z)%type (only parsing).

(** The slots below height [h], the topmost first. *)
Fixpoint slots (d : Z -> Z) (h : nat) : list Z :=
  match h with
  | O => []
  | S h' => d (Z.of_nat h') :: slots d h'
  end.

Definition contents (s : dfs_stack_t) : list Z :=
  slots (data s) (Z.to_nat (offset s)).

(** A state lies on the stack with [x] on top, then [y], then [z]. *)
Definition flat (sts : list state) : list Z :=
  flat_map (fun st : state => let '(x, y, z) := st in [x; y; z]) sts.

Definition holds (s : dfs_stack_t) (sts : list state) : Prop :=
  0 <= offset s /\ contents s = flat sts.

Lemma slots_length d h : length (slots d h) = h.
Proof. induction h; simpl; congruence. Qed.

Lemma slots_store d i v h :
  Z.of_nat h <= i -> slots (store d i v) h = slots d h.
Proof.
  induction h as [|h IH]; intros Hle; simpl; [reflexivity|].
  unfold store at 1.
  destruct (Z.eqb_spec (Z.of_nat h) i) as [E|_]; [lia|].
  rewrite IH by lia. reflexivity.
Qed.

Lemma flat_length sts : length (flat sts) = (3 * length sts)%nat.
Proof.
  induction sts as [|[[x y] z] sts IH]; [reflexivity|].
  change (flat ((x, y, z) :: sts)) with (x :: y :: z :: flat sts).
  simpl length. rewrite IH. lia.
Qed.

Lemma holds_offset s sts :
  holds s sts -> offset s = 3 * Z.of_nat (length sts).
Proof.
  intros [H0 Hc].
  assert (Hl : length (contents s) = length (flat sts)) by (rewrite Hc; reflexivity).
  unfold contents in Hl. rewrite slots_length, flat_length in Hl. lia.
Qed.

Lemma push_contents s v :
  0 <= offset s -> offset s < STACK_SLOTS ->
  exists s', dfs_stack_push s v = Ok s' /\
             offset s' = offset s + 1 /\
             contents s' = v :: contents s.
Proof.
  intros H0 Hcap. unfold dfs_stack_push.
  destruct (Z.ltb_spec (offset s) STACK_SLOTS) as [_|C]; [|lia].
  eexists; split; [reflexivity|]. split; [reflexivity|].
  unfold contents; simpl.
  replace (Z.to_nat (offset s + 1)) with (S (Z.to_nat (offset s))) by lia.
  simpl. rewrite Z2Nat.id by lia.
  rewrite slots_store by lia.
  unfold store. rewrite Z.eqb_refl. reflexivity.
Qed.

Lemma pop_contents s v l :
  0 <= offset s -> contents s = v :: l ->
  exists s', dfs_stack_pop s = Ok (v, s') /\
             offset s' = offset s - 1 /\
             0 <= offset s' /\
             contents s' = l.
Proof.
  intros H0 Hc. unfold contents in Hc.
  destruct (Z.to_nat (offset s)) as [|h] eqn:Eh; [discriminate|].
  simpl in Hc. injection Hc as Hv Hl.
  assert (Ho : offset s = Z.of_nat h + 1) by lia.
  unfold dfs_stack_pop.
  destruct (Z.ltb_spec 0 (offset s)) as [_|C]; [|lia].
  replace (offset s - 1) with (Z.of_nat h) by lia.
  rewrite Hv. eexists; split; [reflexivity|].
  simpl. repeat split; try lia.
  unfold contents; simpl. rewrite Nat2Z.id. exact Hl.
Qed.

Lemma push_state_holds s sts x y z :
  holds s sts -> offset s + 3 <= STACK_SLOTS ->
  exists s', push_state s x y z = Ok s' /\ holds s' ((x, y, z) :: sts).
Proof.
  intros [H0 Hc] Hcap. unfold push_state.
  destruct (push_contents s z) as (s1 & E1 & O1 & C1); [lia|lia|].
  destruct (push_contents s1 y) as (s2 & E2 & O2 & C2); [lia|lia|].
  destruct (push_contents s2 x) as (s3 & E3 & O3 & C3); [lia|lia|].
  rewrite E1; simpl. rewrite E2; simpl. rewrite E3.
  exists s3. split; [reflexivity|].
  split; [lia|]. simpl. congruence.
Qed.

Lemma pop_state_holds s sts x y z :
  holds s ((x, y, z) :: sts) ->
  exists s1 s2 s3,
    dfs_stack_pop s = Ok (x, s1) /\
    dfs_stack_pop s1 = Ok (y, s2) /\
    dfs_stack_pop s2 = Ok (z, s3) /\
    holds s3 sts.
Proof.
  intros [H0 Hc]. simpl in Hc.
  destruct (pop_contents s x _ H0 Hc) as (s1 & E1 & _ & P1 & C1).
  destruct (pop_contents s1 y _ P1 C1) as (s2 & E2 & _ & P2 & C2).
  destruct (pop_contents s2 z _ P2 C2) as (s3 & E3 & _ & P3 & C3).
  exists s1, s2, s3. repeat split; assumption.
Qed.

Lemma holds_nil_offset s : holds s [] -> offset s = 0.
Proof. intros H. apply holds_offset in H. simpl in H. lia. Qed.

Lemma holds_cons_offset s st sts : holds s (st :: sts) -> 0 < offset s.
Proof. intros H. apply holds_offset in H. simpl length in H. lia. Qed.

(** ** One iteration, read on the list of pending states *)

Section Iteration.

Variable order : push_order.
Variables n j k : Z.
Variables prices calories : list Z.

(** The successors that an iteration pushes for the state [(x, y, z)], the
    one pushed last (and popped first) at the head. *)
Definition expand (x y z : Z) : result (list state) :=
  let new_x := int_add x 1 in
  if new_x <=? n then
    p <- array_get prices x ;;
    c <- array_get calories x ;;
    let new_y := int_add y p in
    let new_z := int_add z c in
    let buy := if (new_y <=? j) && (new_z <=? k)
               then [(new_x, new_y, new_z)] else [] in
    match order with
    | BuyThenSkip => Ok ((new_x, y, z) :: buy)
    | SkipThenBuy => Ok (buy ++ [(new_x, y, z)])
    end
  else Ok [].

Definition is_target (x y z : Z) : bool := (x =? n) && (y =? j) && (z =? k).

(** The five ways an iteration can go when [(x, y, z)] is on top of the
    stack and [rest] below it. *)
Inductive body_view (m : machine) (x y z : Z) (rest : list state)
  : result outcome -> Prop :=
| view_target :
    is_target x y z = true ->
    body_view m x y z rest (Ok (Return true))
| view_outside :
    is_target x y z = false ->
    in_table x y z = false ->
    body_view m x y z rest (Fault TableOutOfBounds)
| view_dead m' :
    is_target x y z = false ->
    in_table x y z = true ->
    table m x y z = BadPath ->
    table m' = table m ->
    holds (stack m') rest ->
    body_view m x y z rest (Ok (Continue m'))
| view_item f :
    is_target x y z = false ->
    in_table x y z = true ->
    table m x y z = Unknown ->
    expand x y z = Fault f ->
    body_view m x y z rest (Fault f)
| view_expand m' succs :
    is_target x y z = false ->
    in_table x y z = true ->
    table m x y z = Unknown ->
    expand x y z = Ok succs ->
    table m' = mark (table m) x y z BadPath ->
    holds (stack m') (succs ++ rest) ->
    body_view m x y z rest (Ok (Continue m')).

Lemma body_cases m x y z rest :
  holds (stack m) ((x, y, z) :: rest) ->
  3 * Z.of_nat (length rest) + 6 <= STACK_SLOTS ->
  body_view m x y z rest (loop_body order n j k prices calories m).
Proof.
  intros Hh Hcap.
  destruct (pop_state_holds _ _ _ _ _ Hh) as (s1 & s2 & s3 & E1 & E2 & E3 & H3).
  pose proof (holds_offset _ _ H3) as Ho.
  unfold loop_body. rewrite E1; simpl. rewrite E2; simpl. rewrite E3; simpl.
  fold (is_target x y z).
  destruct (is_target x y z) eqn:Et; [now constructor|].
  unfold table_get, table_set.
  destruct (in_table x y z) eqn:Ei; simpl; [|now constructor].
  destruct (table m x y z) eqn:Em; [|now apply view_dead].
  pose proof (fun f => view_item m x y z rest f Et Ei Em) as Vitem.
  pose proof (fun m' succs => view_expand m x y z rest m' succs Et Ei Em) as Vexp.
  unfold expand in Vitem, Vexp.
  destruct (int_add x 1 <=? n); [|now apply (Vexp _ [])].
  destruct (array_get prices x) as [p|f]; simpl in Vitem, Vexp |- *;
    [|now apply Vitem].
  destruct (array_get calories x) as [c|f]; simpl in Vitem, Vexp |- *;
    [|now apply Vitem].
  destruct order.
  - destruct ((int_add y p <=? j) && (int_add z c <=? k)).
    + destruct (push_state_holds s3 rest (int_add x 1) (int_add y p) (int_add z c) H3)
        as (s4 & E4 & H4); [lia|].
      rewrite E4; simpl.
      destruct (push_state_holds s4 _ (int_add x 1) y z H4) as (s5 & E5 & H5).
      { rewrite (holds_offset _ _ H4). simpl length. lia. }
      rewrite E5; simpl. eapply Vexp; [reflexivity|reflexivity|exact H5].
    + simpl.
      destruct (push_state_holds s3 rest (int_add x 1) y z H3) as (s4 & E4 & H4); [lia|].
      rewrite E4; simpl. eapply Vexp; [reflexivity|reflexivity|exact H4].
  - destruct (push_state_holds s3 rest (int_add x 1) y z H3) as (s4 & E4 & H4); [lia|].
    rewrite E4; simpl.
    destruct ((int_add y p <=? j) && (int_add z c <=? k)).
    + destruct (push_state_holds s4 _ (int_add x 1) (int_add y p) (int_add z c) H4)
        as (s5 & E5 & H5).
      { rewrite (holds_offset _ _ H4). simpl length. lia. }
      rewrite E5; simpl. eapply Vexp; [reflexivity|reflexivity|exact H5].
    + simpl. eapply Vexp; [reflexivity|reflexivity|exact H4].
Qed.

(** More fuel never changes a result that was reached. *)
Lemma solve_loop_more_fuel fuel :
  forall m r extra,
    solve_loop order n j k prices calories fuel m = r ->
    r <> OutOfFuel ->
    solve_loop order n j k prices calories (fuel + extra) m = r.
Proof.
  induction fuel as [|fuel IH]; intros m r extra Hr Hne; simpl in *.
  - congruence.
  - destruct (0 <? offset (stack m)); [|assumption].
    destruct (loop_body order n j k prices calories m) as [[b|m']|f];
      try assumption.
    now apply IH.
Qed.

Lemma solve_with_more_fuel fuel m0 r extra :
  solve_with order n j k prices calories fuel m0 = r ->
  r <> OutOfFuel ->
  solve_with order n j k prices calories (fuel + extra) m0 = r.
Proof.
  unfold solve_with. destruct (entry m0) as [m|f]; [|trivial].
  apply solve_loop_more_fuel.
Qed.

(** Two runs of the same call that both end agree. *)
Lemma solve_with_deterministic f1 f2 m0 r1 r2 :
  solve_with order n j k prices calories f1 m0 = r1 ->
  solve_with order n j k prices calories f2 m0 = r2 ->
  r1 <> OutOfFuel -> r2 <> OutOfFuel -> r1 = r2.
Proof.
  intros H1 H2 N1 N2.
  apply (solve_with_more_fuel _ _ _ f2) in H1; [|assumption].
  apply (solve_with_more_fuel _ _ _ f1) in H2; [|assumption].
  rewrite Nat.add_comm in H2. congruence.
Qed.

End Iteration.

(** ** Arithmetic on [int] without wrap-around *)

Lemma int_add_exact a b :
  INT_MIN <= a + b <= INT_MAX -> int_add a b = a + b.
Proof.
  unfold INT_MIN, INT_MAX, int_add, wrap_int. intros H.
  rewrite Z.mod_small by lia. lia.
Qed.

Lemma array_get_nth a i v :
  0 <= i -> nth_error a (Z.to_nat i) = Some v -> array_get a i = Ok v.
Proof.
  intros Hi Hn. unfold array_get.
  destruct (Z.ltb_spec i 0); [lia|]. now rewrite Hn.
Qed.

Lemma array_get_fault a i f : array_get a i = Fault f -> f = ItemOutOfBounds.
Proof.
  unfold array_get. destruct (i <? 0); [congruence|].
  destruct (nth_error a (Z.to_nat i)); congruence.
Qed.

(** ** The shape of the stack: depth-first order *)

(** The [x] components decrease strictly and stay in [[0, ub)]. *)
Fixpoint descending (ub : Z) (sts : list state) : Prop :=
  match sts with
  | [] => True
  | (x, _, _) :: rest => 0 <= x < ub /\ descending x rest
  end.

(** Below the top state the [x] components decrease strictly; the top state
    may share its [x] with the one under it. *)
Definition stack_shape (n : Z) (sts : list state) : Prop :=
  match sts with
  | [] => True
  | (x, _, _) :: rest => 0 <= x <= n /\ descending (x + 1) rest
  end.

Lemma descending_weaken ub ub' sts :
  ub <= ub' -> descending ub sts -> descending ub' sts.
Proof.
  destruct sts as [|[[x y] z] rest]; simpl; [trivial|].
  intros Hle [Hx Hr]. split; [lia|assumption].
Qed.

Lemma descending_length sts :
  forall ub, 0 <= ub -> descending ub sts -> Z.of_nat (length sts) <= ub.
Proof.
  induction sts as [|[[x y] z] rest IH]; intros ub Hub Hd.
  - simpl. lia.
  - destruct Hd as [Hx Hr]. specialize (IH x (proj1 Hx) Hr).
    simpl length. lia.
Qed.

Lemma stack_shape_below n x y z rest :
  stack_shape n ((x, y, z) :: rest) ->
  stack_shape n rest /\ Z.of_nat (length rest) <= n + 1.
Proof.
  intros [Hx Hd]. split.
  - destruct rest as [|[[x' y'] z'] rest']; simpl; [trivial|].
    destruct Hd as [Hx' Hd']. split; [lia|].
    apply descending_weaken with (ub := x'); [lia|assumption].
  - apply descending_length in Hd; lia.
Qed.

Lemma stack_shape_push n x y z rest succs :
  stack_shape n ((x, y, z) :: rest) ->
  Forall (fun st : state => fst (fst st) = x + 1) succs ->
  (length succs <= 2)%nat ->
  (succs <> [] -> x + 1 <= n) ->
  stack_shape n (succs ++ rest).
Proof.
  intros Hs Hall Hlen Hn.
  destruct succs as [|[[xa ya] za] [|[[xb yb] zb] [|? ?]]].
  - simpl. exact (proj1 (stack_shape_below _ _ _ _ _ Hs)).
  - destruct Hs as [Hx Hd]. inversion_clear Hall as [|? ? Ha _]. simpl in Ha.
    assert (x + 1 <= n) by (apply Hn; discriminate).
    simpl. split; [lia|].
    apply descending_weaken with (ub := x + 1); [lia|assumption].
  - destruct Hs as [Hx Hd]. inversion_clear Hall as [|? ? Ha Hall'].
    inversion_clear Hall' as [|? ? Hb _]. simpl in Ha, Hb.
    assert (x + 1 <= n) by (apply Hn; discriminate).
    subst xa xb. simpl. repeat split; try lia. assumption.
  - simpl in Hlen. lia.
Qed.

Section StackSafety.

Variable order : push_order.
Variables n j k : Z.
Variables prices calories : list Z.

Hypothesis n_range : 0 <= n <= MAX_DEPTH_X - 1.

Lemma expand_fault x y z f :
  expand order n j k prices calories x y z = Fault f -> f = ItemOutOfBounds.
Proof.
  unfold expand. destruct (int_add x 1 <=? n); [|discriminate].
  destruct (array_get prices x) as [p|f1] eqn:Ep; simpl.
  - destruct (array_get calories x) as [c|f2] eqn:Ec; simpl.
    + destruct order; discriminate.
    + intros E; injection E as <-. eapply array_get_fault; eassumption.
  - intros E; injection E as <-. eapply array_get_fault; eassumption.
Qed.

Lemma expand_levels x y z succs :
  0 <= x <= n ->
  expand order n j k prices calories x y z = Ok succs ->
  Forall (fun st : state => fst (fst st) = x + 1) succs /\
  (length succs <= 2)%nat /\
  (succs <> [] -> x + 1 <= n).
Proof.
  intros Hx. unfold expand.
  rewrite int_add_exact by (unfold INT_MIN, INT_MAX, MAX_DEPTH_X in *; lia).
  destruct (Z.leb_spec (x + 1) n) as [Hle|Hgt].
  - destruct (array_get prices x) as [p|?]; simpl; [|discriminate].
    destruct (array_get calories x) as [c|?]; simpl; [|discriminate].
    destruct ((int_add y p <=? j) && (int_add z c <=? k)), order;
      intros E; injection E as <-; simpl;
      (split; [repeat constructor|split; [lia|intros _; exact Hle]]).
  - intros E; injection E as <-. simpl.
    split; [constructor|split; [lia|intros C; now elim C]].
Qed.

Lemma shape_capacity x y z rest :
  stack_shape n ((x, y, z) :: rest) ->
  3 * Z.of_nat (length rest) + 6 <= STACK_SLOTS.
Proof.
  intros Hs. apply stack_shape_below in Hs. destruct Hs as [_ Hl].
  unfold STACK_SLOTS, MAX_DEPTH_STACK, MAX_DEPTH_X, MAX_DEPTH_Y, MAX_DEPTH_Z in *.
  lia.
Qed.

Lemma solve_loop_stack_safe fuel :
  forall m sts,
    holds (stack m) sts -> stack_shape n sts ->
    solve_loop order n j k prices calories fuel m <> Faults StackOverflow /\
    solve_loop order n j k prices calories fuel m <> Faults StackUnderflow.
Proof.
  induction fuel as [|fuel IH]; intros m sts Hh Hs; simpl.
  - split; discriminate.
  - destruct (Z.ltb_spec 0 (offset (stack m))) as [Hpos|_]; [|split; discriminate].
    destruct sts as [|[[x y] z] rest].
    + apply holds_nil_offset in Hh. lia.
    + pose proof (shape_capacity _ _ _ _ Hs) as Hcap.
      destruct (body_cases order n j k prices calories m x y z rest Hh Hcap)
        as [Et|Et Ei|m' Et Ei Em Ht Hh'|f Et Ei Em Ex|m' succs Et Ei Em Ex Ht Hh'].
      * split; discriminate.
      * split; discriminate.
      * apply (IH m' rest Hh'). exact (proj1 (stack_shape_below _ _ _ _ _ Hs)).
      * apply expand_fault in Ex. subst f. split; discriminate.
      * apply (IH m' (succs ++ rest) Hh').
        destruct (expand_levels x y z succs (proj1 Hs) Ex) as (Ha & Hl & Hn).
        eapply stack_shape_push; eassumption.
Qed.

Lemma entry_holds m0 :
  offset (stack m0) = 0 ->
  exists m, entry m0 = Ok m /\ holds (stack m) [(0, 0, 0)] /\ table m = table m0.
Proof.
  intros H0. unfold entry.
  assert (Hh : holds (stack m0) []).
  { split; [lia|]. unfold contents. rewrite H0. reflexivity. }
  destruct (push_state_holds (stack m0) [] 0 0 0 Hh) as (s & E & Hs).
  { rewrite H0. unfold STACK_SLOTS, MAX_DEPTH_STACK, MAX_DEPTH_X, MAX_DEPTH_Y,
      MAX_DEPTH_Z. lia. }
  rewrite E. simpl. eexists; split; [reflexivity|]. split; [exact Hs|reflexivity].
Qed.

End StackSafety.

(** ** The memo table as a set of marked cells *)

Definition lookup (t : table_t) (st : state) : memo_item_t :=
  let '(x, y, z) := st in t x y z.

Definition is_unknown (v : memo_item_t) : bool :=
  match v with
  | Unknown => true
  | BadPath => false
  end.

(** Number of the cells of [l] that are still [Unknown]. *)
Definition unknown_cells (t : table_t) (l : list state) : nat :=
  length (filter (fun st => is_unknown (lookup t st)) l).

Lemma mark_same t x y z v : mark t x y z v x y z = v.
Proof. unfold mark. now rewrite !Z.eqb_refl. Qed.

Lemma mark_other t x y z v x' y' z' :
  (x', y', z') <> (x, y, z) -> mark t x y z v x' y' z' = t x' y' z'.
Proof.
  intros Hne. unfold mark.
  destruct (Z.eqb_spec x' x), (Z.eqb_spec y' y), (Z.eqb_spec z' z);
    simpl; try reflexivity.
  subst. now elim Hne.
Qed.

Lemma mark_keeps_bad t x y z x' y' z' :
  t x' y' z' = BadPath -> mark t x y z BadPath x' y' z' = BadPath.
Proof.
  intros Hb. unfold mark.
  destruct ((x' =? x) && (y' =? y) && (z' =? z)); [reflexivity|assumption].
Qed.

Lemma unknown_cells_mark_le t x y z l :
  (unknown_cells (mark t x y z BadPath) l <= unknown_cells t l)%nat.
Proof.
  unfold unknown_cells.
  induction l as [|[[a b] c] l IH]; simpl; [lia|].
  destruct (t a b c) eqn:Et.
  - destruct (mark t x y z BadPath a b c); simpl; lia.
  - rewrite (mark_keeps_bad _ _ _ _ _ _ _ Et). simpl. exact IH.
Qed.

Lemma unknown_cells_mark_lt t x y z l :
  In (x, y, z) l -> t x y z = Unknown ->
  (unknown_cells (mark t x y z BadPath) l < unknown_cells t l)%nat.
Proof.
  intros Hin Hu.
  induction l as [|[[a b] c] l IH]; [destruct Hin|].
  pose proof (unknown_cells_mark_le t x y z l) as Hle.
  unfold unknown_cells in *. simpl.
  destruct Hin as [E|Hin].
  - injection E as -> -> ->. rewrite mark_same, Hu. simpl. lia.
  - specialize (IH Hin).
    destruct (t a b c) eqn:Et.
    + destruct (mark t x y z BadPath a b c); simpl; lia.
    + rewrite (mark_keeps_bad _ _ _ _ _ _ _ Et). simpl. exact IH.
Qed.

Lemma unknown_cells_bound t l : (unknown_cells t l <= length l)%nat.
Proof. unfold unknown_cells. apply filter_length_le. Qed.

(** ** The search decides reachability of the target *)

Section Reachability.

Variable order : push_order.
Variables n j k : Z.
Variables prices calories : list Z.

Hypothesis n_range : 0 <= n <= MAX_DEPTH_X - 1.

(** A finite region of the table that contains the origin and is closed under
    the successors that the loop pushes. *)
Variable cells : list state.

Hypothesis cells_origin : In (0, 0, 0) cells.

Hypothesis cells_in_table :
  forall x y z, In (x, y, z) cells -> in_table x y z = true.

Hypothesis cells_closed :
  forall x y z, In (x, y, z) cells ->
    exists succs, expand order n j k prices calories x y z = Ok succs /\
                  forall w, In w succs -> In w cells.

(** The states that the pushes of the loop can produce from the origin. *)
Inductive visits : state -> Prop :=
| visits_origin : visits (0, 0, 0)
| visits_next x y z succs w :
    visits (x, y, z) ->
    expand order n j k prices calories x y z = Ok succs ->
    In w succs ->
    visits w.

Lemma visits_in_cells st : visits st -> In st cells.
Proof.
  induction 1 as [|x y z succs w _ IH Hex Hin]; [exact cells_origin|].
  destruct (cells_closed x y z IH) as (succs' & Hex' & Hcl).
  rewrite Hex in Hex'. injection Hex' as <-. now apply Hcl.
Qed.

(** The loop invariant, on the pending states [sts] and the table [t]. *)
Record search_inv (sts : list state) (t : table_t) : Prop := {
  inv_visits : Forall visits sts;
  inv_shape : stack_shape n sts;
  inv_origin : In (0, 0, 0) sts \/ t 0 0 0 = BadPath;
  inv_closed :
    forall x y z succs w,
      In (x, y, z) cells -> t x y z = BadPath ->
      expand order n j k prices calories x y z = Ok succs ->
      In w succs ->
      In w sts \/ lookup t w = BadPath;
  inv_target : In (n, j, k) cells -> t n j k = Unknown
}.

Lemma is_target_true x y z :
  is_target n j k x y z = true -> (x, y, z) = (n, j, k).
Proof.
  unfold is_target. rewrite !andb_true_iff, !Z.eqb_eq.
  intros [[-> ->] ->]. reflexivity.
Qed.

Lemma is_target_false x y z :
  is_target n j k x y z = false -> (n, j, k) <> (x, y, z).
Proof.
  intros Hf E. injection E as <- <- <-.
  unfold is_target in Hf. now rewrite !Z.eqb_refl in Hf.
Qed.

Lemma search_inv_dead x y z rest t :
  search_inv ((x, y, z) :: rest) t ->
  t x y z = BadPath ->
  search_inv rest t.
Proof.
  intros [Hv Hs Ho Hc Ht] Hb. constructor.
  - now inversion Hv.
  - exact (proj1 (stack_shape_below _ _ _ _ _ Hs)).
  - destruct Ho as [[E|Hin]|Hbad]; [|now left|now right].
    injection E as -> -> ->. now right.
  - intros x' y' z' succs w Hin Hb' Hex Hw.
    destruct (Hc x' y' z' succs w Hin Hb' Hex Hw) as [[E|Hin']|Hbad];
      [|now left|now right].
    subst w. now right.
  - exact Ht.
Qed.

Lemma search_inv_expand x y z rest t succs :
  search_inv ((x, y, z) :: rest) t ->
  is_target n j k x y z = false ->
  expand order n j k prices calories x y z = Ok succs ->
  search_inv (succs ++ rest) (mark t x y z BadPath).
Proof.
  intros [Hv Hs Ho Hc Ht] Hnt Hex.
  assert (Hvx : visits (x, y, z)) by now inversion Hv.
  constructor.
  - apply Forall_app. split; [|now inversion Hv].
    apply Forall_forall. intros w Hw. now apply (visits_next x y z succs).
  - destruct (expand_levels order n j k prices calories n_range x y z succs)
      as (Ha & Hl & Hn); [exact (proj1 Hs)|exact Hex|].
    eapply stack_shape_push; eassumption.
  - destruct Ho as [[E|Hin]|Hbad].
    + injection E as -> -> ->. right. apply mark_same.
    + left. apply in_or_app. now right.
    + right. now apply mark_keeps_bad.
  - intros x' y' z' succs' w Hin Hb' Hex' Hw.
    assert (Hold : In w (succs ++ rest) \/ w = (x, y, z) \/ lookup t w = BadPath).
    { destruct (Z.eqb_spec x' x) as [->|Nx];
        [destruct (Z.eqb_spec y' y) as [->|Ny];
         [destruct (Z.eqb_spec z' z) as [->|Nz]|]|].
      - left. rewrite Hex in Hex'. injection Hex' as <-.
        apply in_or_app. now left.
      - rewrite mark_other in Hb' by congruence.
        destruct (Hc _ _ _ _ _ Hin Hb' Hex' Hw) as [[E|Hin']|Hbad]; auto.
        left. apply in_or_app. now right.
      - rewrite mark_other in Hb' by congruence.
        destruct (Hc _ _ _ _ _ Hin Hb' Hex' Hw) as [[E|Hin']|Hbad]; auto.
        left. apply in_or_app. now right.
      - rewrite mark_other in Hb' by congruence.
        destruct (Hc _ _ _ _ _ Hin Hb' Hex' Hw) as [[E|Hin']|Hbad]; auto.
        left. apply in_or_app. now right. }
    destruct Hold as [Hl|[->|Hbad]]; [now left| |].
    + right. simpl. apply mark_same.
    + right. destruct w as [[a b] c]. simpl in *. now apply mark_keeps_bad.
  - intros Hin. rewrite mark_other; [now apply Ht|].
    now apply is_target_false.
Qed.

(** With nothing left on the stack, every state that can be visited has been
    marked. *)
Lemma search_inv_exhausted t st :
  search_inv [] t -> visits st -> lookup t st = BadPath.
Proof.
  intros [_ _ Ho Hc _] Hv.
  induction Hv as [|x y z succs w Hv IH Hex Hin].
  - destruct Ho as [[]|Hb]. exact Hb.
  - destruct (Hc x y z succs w (visits_in_cells _ Hv) IH Hex Hin) as [[]|Hb].
    exact Hb.
Qed.

Lemma solve_loop_decides fuel :
  forall m sts,
    holds (stack m) sts ->
    search_inv sts (table m) ->
    (2 * unknown_cells (table m) cells + length sts < fuel)%nat ->
    exists b, solve_loop order n j k prices calories fuel m = Returns b /\
              (b = true <-> visits (n, j, k)).
Proof.
  induction fuel as [|fuel IH]; intros m sts Hh Hinv Hfuel; [lia|].
  simpl. destruct sts as [|[[x y] z] rest].
  - rewrite (holds_nil_offset _ Hh). simpl.
    exists false. split; [reflexivity|]. split; [discriminate|].
    intros Hv. pose proof (search_inv_exhausted _ _ Hinv Hv) as Hb.
    simpl in Hb. rewrite (inv_target _ _ Hinv) in Hb; [discriminate|].
    now apply visits_in_cells.
  - pose proof (holds_cons_offset _ _ _ Hh) as Hpos.
    destruct (Z.ltb_spec 0 (offset (stack m))) as [_|C]; [|lia].
    assert (Hvx : visits (x, y, z)).
    { pose proof (inv_visits _ _ Hinv) as Hv. now inversion Hv. }
    pose proof (visits_in_cells _ Hvx) as Hcx.
    pose proof (shape_capacity n n_range _ _ _ _ (inv_shape _ _ Hinv)) as Hcap.
    destruct (body_cases order n j k prices calories m x y z rest Hh Hcap)
      as [Et|Et Ei|m' Et Ei Em Ht Hh'|f Et Ei Em Ex|m' succs Et Ei Em Ex Ht Hh'].
    + exists true. split; [reflexivity|]. split; [intros _|reflexivity].
      rewrite <- (is_target_true _ _ _ Et). exact Hvx.
    + rewrite (cells_in_table _ _ _ Hcx) in Ei. discriminate.
    + apply (IH m' rest Hh').
      * rewrite Ht. now apply (search_inv_dead x y z).
      * rewrite Ht. simpl length in Hfuel. lia.
    + destruct (cells_closed _ _ _ Hcx) as (succs & Hex & _). congruence.
    + apply (IH m' (succs ++ rest) Hh').
      * rewrite Ht. now apply search_inv_expand.
      * rewrite Ht.
        pose proof (unknown_cells_mark_lt (table m) x y z cells Hcx Em) as Hlt.
        destruct (expand_levels order n j k prices calories n_range x y z succs)
          as (_ & Hl & _); [exact (proj1 (inv_shape _ _ Hinv))|exact Ex|].
        rewrite length_app. simpl length in Hfuel. lia.
Qed.

Lemma solve_with_decides m0 fuel :
  offset (stack m0) = 0 ->
  (forall x y z, in_table x y z = true -> table m0 x y z = Unknown) ->
  (2 * length cells + 2 <= fuel)%nat ->
  exists b, solve_with order n j k prices calories fuel m0 = Returns b /\
            (b = true <-> visits (n, j, k)).
Proof.
  intros Hempty Hfresh Hfuel.
  destruct (entry_holds m0 Hempty) as (m & Em & Hh & Ht).
  unfold solve_with. rewrite Em.
  apply (solve_loop_decides fuel m [(0, 0, 0)] Hh).
  - rewrite Ht. constructor.
    + repeat constructor.
    + simpl. split; [lia|trivial].
    + left. now left.
    + intros x y z succs w Hin Hb. rewrite Hfresh in Hb; [discriminate|].
      now apply cells_in_table.
    + intros Hin. apply Hfresh. now apply cells_in_table.
  - pose proof (unknown_cells_bound (table m) cells). simpl length. lia.
Qed.

End Reachability.

(** ** What the search is meant to decide *)

(** Sum of the first [m] values that [choice] takes. *)
Fixpoint running_sum (m : nat) (choice : nat -> bool) (vals : list Z) : Z :=
  match m with
  | O => 0
  | S m' => running_sum m' choice vals + (if choice m' then nth m' vals 0 else 0)
  end.

(** After [x] decisions the sums are [y] and [z], and no prefix went over
    the budgets [j] and [k]. *)
Definition selects (j k : Z) (prices calories : list Z) (choice : nat -> bool)
  (x : nat) (y z : Z) : Prop :=
  (forall m, (m <= x)%nat ->
     running_sum m choice prices <= j /\ running_sum m choice calories <= k) /\
  running_sum x choice prices = y /\
  running_sum x choice calories = z.

(** Some 0/1 choice for the items [0 .. n-1] stays within both budgets at
    every prefix and ends on exactly [j] and [k]. *)
Definition feasible (n j k : Z) (prices calories : list Z) : Prop :=
  exists choice : nat -> bool,
    selects j k prices calories choice (Z.to_nat n) j k.

(** The inputs that the contract of [solve] accepts. *)
Record valid_input (n j k : Z) (prices calories : list Z) : Prop := {
  valid_n : 0 <= n <= MAX_DEPTH_X - 1;
  valid_j : 0 <= j <= MAX_DEPTH_Y - 1;
  valid_k : 0 <= k <= MAX_DEPTH_Z - 1;
  valid_prices_length : Z.of_nat (length prices) = n;
  valid_calories_length : Z.of_nat (length calories) = n;
  valid_prices : Forall (fun p => 0 <= p <= INT_MAX) prices;
  valid_calories : Forall (fun c => 0 <= c <= INT_MAX) calories
}.

(** No addition of an item to a sum within budget leaves the range of [int]. *)
Definition no_overflow (j k : Z) (prices calories : list Z) : Prop :=
  Forall (fun p => j + p <= INT_MAX) prices /\
  Forall (fun c => k + c <= INT_MAX) calories.

(** The globals at entry: empty stack, table all [Unknown]. *)
Definition fresh (m0 : machine) : Prop :=
  offset (stack m0) = 0 /\
  forall x y z, in_table x y z = true -> table m0 x y z = Unknown.

(** Iterations that are always enough: two per cell of the part of the table
    in use, and two more. *)
Definition fuel_bound (n j k : Z) : nat :=
  Z.to_nat (2 * ((n + 1) * (j + 1) * (k + 1)) + 2).

(** ** The part of the table in use *)

Definition range (m : Z) : list Z := map Z.of_nat (seq 0 (Z.to_nat m)).

Definition box (n j k : Z) : list state :=
  flat_map (fun x =>
    flat_map (fun y =>
      map (fun z => (x, y, z)) (range (k + 1))) (range (j + 1))) (range (n + 1)).

Lemma in_range m v : In v (range m) <-> 0 <= v < m.
Proof.
  unfold range. rewrite in_map_iff. split.
  - intros (i & <- & Hi). apply in_seq in Hi. lia.
  - intros Hv. exists (Z.to_nat v). split; [lia|]. apply in_seq. lia.
Qed.

Lemma range_length m : length (range m) = Z.to_nat m.
Proof. unfold range. now rewrite length_map, length_seq. Qed.

Lemma in_box n j k x y z :
  In (x, y, z) (box n j k) <-> 0 <= x <= n /\ 0 <= y <= j /\ 0 <= z <= k.
Proof.
  unfold box. rewrite in_flat_map. split.
  - intros (x' & Hx & H). apply in_flat_map in H. destruct H as (y' & Hy & H).
    apply in_map_iff in H. destruct H as (z' & E & Hz). injection E as -> -> ->.
    apply in_range in Hx, Hy, Hz. lia.
  - intros (Hx & Hy & Hz). exists x. split; [apply in_range; lia|].
    apply in_flat_map. exists y. split; [apply in_range; lia|].
    apply in_map_iff. exists z. split; [reflexivity|apply in_range; lia].
Qed.

Lemma flat_map_constant_length {A B : Type} (f : A -> list B) (c : nat) l :
  (forall a, length (f a) = c) -> length (flat_map f l) = (length l * c)%nat.
Proof.
  intros Hc. induction l as [|a l IH]; simpl; [reflexivity|].
  rewrite length_app, Hc, IH. reflexivity.
Qed.

Lemma box_length n j k :
  0 <= n -> 0 <= j -> 0 <= k ->
  Z.of_nat (length (box n j k)) = (n + 1) * (j + 1) * (k + 1).
Proof.
  intros Hn Hj Hk. unfold box.
  rewrite (flat_map_constant_length _ (Z.to_nat (j + 1) * Z.to_nat (k + 1))).
  - rewrite range_length. lia.
  - intros x. rewrite (flat_map_constant_length _ (Z.to_nat (k + 1))).
    + now rewrite range_length.
    + intros y. now rewrite length_map, range_length.
Qed.

Lemma box_fuel n j k :
  0 <= n -> 0 <= j -> 0 <= k ->
  (2 * length (box n j k) + 2 = fuel_bound n j k)%nat.
Proof.
  intros Hn Hj Hk. unfold fuel_bound.
  pose proof (box_length n j k Hn Hj Hk). lia.
Qed.

Lemma in_box_in_table n j k x y z :
  n <= MAX_DEPTH_X - 1 -> j <= MAX_DEPTH_Y - 1 -> k <= MAX_DEPTH_Z - 1 ->
  In (x, y, z) (box n j k) -> in_table x y z = true.
Proof.
  intros Hn Hj Hk Hin. apply in_box in Hin. unfold in_table.
  repeat (apply andb_true_intro; split);
    first [apply Z.leb_le | apply Z.ltb_lt]; lia.
Qed.

(** ** Choices *)

(** The choice that agrees with [choice] except for the decision [b] on
    item [x]. *)
Definition decide (choice : nat -> bool) (x : nat) (b : bool) : nat -> bool :=
  fun i => if Nat.eqb i x then b else choice i.

Lemma running_sum_ext m f g vals :
  (forall i, (i < m)%nat -> f i = g i) ->
  running_sum m f vals = running_sum m g vals.
Proof.
  induction m as [|m IH]; intros H; simpl; [reflexivity|].
  rewrite IH by (intros i Hi; apply H; lia).
  rewrite (H m) by lia. reflexivity.
Qed.

Lemma running_sum_decide m choice x b vals :
  (m <= x)%nat ->
  running_sum m (decide choice x b) vals = running_sum m choice vals.
Proof.
  intros Hle. apply running_sum_ext. intros i Hi. unfold decide.
  destruct (Nat.eqb_spec i x); [lia|reflexivity].
Qed.

Lemma selects_decide j k prices calories choice x y z b :
  selects j k prices calories choice x y z ->
  (b = true -> y + nth x prices 0 <= j /\ z + nth x calories 0 <= k) ->
  selects j k prices calories (decide choice x b) (S x)
    (y + (if b then nth x prices 0 else 0))
    (z + (if b then nth x calories 0 else 0)).
Proof.
  intros (Hpre & Hy & Hz) Hb.
  assert (Hlast : forall vals,
    running_sum (S x) (decide choice x b) vals =
    running_sum x choice vals + (if b then nth x vals 0 else 0)).
  { intros vals. simpl. rewrite running_sum_decide by lia.
    unfold decide. now rewrite Nat.eqb_refl. }
  split; [|split].
  - intros m Hm. destruct (Nat.eq_dec m (S x)) as [->|Hne].
    + rewrite !Hlast, Hy, Hz. destruct (Hpre x (Nat.le_refl x)) as [Py Pz].
      rewrite Hy in Py. rewrite Hz in Pz.
      destruct b; [apply Hb; reflexivity|lia].
    + rewrite !running_sum_decide by lia. apply Hpre. lia.
  - rewrite Hlast, Hy. reflexivity.
  - rewrite Hlast, Hz. reflexivity.
Qed.

(** ** Inputs on which no [int] addition wraps around *)

Section Exact.

Variable order : push_order.
Variables n j k : Z.
Variables prices calories : list Z.

Hypothesis valid : valid_input n j k prices calories.
Hypothesis bounded : no_overflow j k prices calories.

Lemma item_at (vals : list Z) (P : Z -> Prop) x :
  Z.of_nat (length vals) = n -> Forall P vals -> 0 <= x < n ->
  nth_error vals (Z.to_nat x) = Some (nth (Z.to_nat x) vals 0) /\
  P (nth (Z.to_nat x) vals 0).
Proof.
  intros Hlen Hall Hx.
  assert (Hlt : (Z.to_nat x < length vals)%nat) by lia.
  split.
  - now apply nth_error_nth'.
  - rewrite Forall_forall in Hall. apply Hall. now apply nth_In.
Qed.

(** The successors of a state before the last level, with exact sums. *)
Definition successors (x y z : Z) : list state :=
  let p := nth (Z.to_nat x) prices 0 in
  let c := nth (Z.to_nat x) calories 0 in
  let buy := if (y + p <=? j) && (z + c <=? k)
             then [(x + 1, y + p, z + c)] else [] in
  match order with
  | BuyThenSkip => (x + 1, y, z) :: buy
  | SkipThenBuy => buy ++ [(x + 1, y, z)]
  end.

Lemma expand_exact x y z :
  0 <= x < n -> 0 <= y <= j -> 0 <= z <= k ->
  expand order n j k prices calories x y z = Ok (successors x y z).
Proof.
  intros Hx Hy Hz. destruct valid as [Vn Vj Vk Lp Lc Pp Pc].
  destruct bounded as [Bp Bc].
  destruct (item_at prices _ x Lp Pp Hx) as [Ep Hp].
  destruct (item_at calories _ x Lc Pc Hx) as [Ec Hc].
  destruct (item_at prices _ x Lp Bp Hx) as [_ Hp'].
  destruct (item_at calories _ x Lc Bc Hx) as [_ Hc'].
  unfold expand, successors.
  rewrite int_add_exact by (unfold INT_MIN, INT_MAX, MAX_DEPTH_X in *; lia).
  destruct (Z.leb_spec (x + 1) n); [|lia].
  rewrite (array_get_nth prices x _ (proj1 Hx) Ep). simpl.
  rewrite (array_get_nth calories x _ (proj1 Hx) Ec). simpl.
  rewrite !int_add_exact by (unfold INT_MIN, INT_MAX in *; lia).
  destruct order; reflexivity.
Qed.

Lemma expand_last y z : expand order n j k prices calories n y z = Ok [].
Proof.
  destruct valid as [Vn _ _ _ _ _ _]. unfold expand.
  rewrite int_add_exact by (unfold INT_MIN, INT_MAX, MAX_DEPTH_X in *; lia).
  destruct (Z.leb_spec (n + 1) n); [lia|reflexivity].
Qed.

Lemma in_successors x y z w :
  In w (successors x y z) <->
  w = (x + 1, y, z) \/
  (w = (x + 1, y + nth (Z.to_nat x) prices 0, z + nth (Z.to_nat x) calories 0) /\
   y + nth (Z.to_nat x) prices 0 <= j /\
   z + nth (Z.to_nat x) calories 0 <= k).
Proof.
  unfold successors.
  destruct (Z.leb_spec (y + nth (Z.to_nat x) prices 0) j) as [Hy|Hy];
    destruct (Z.leb_spec (z + nth (Z.to_nat x) calories 0) k) as [Hz|Hz];
    destruct order; simpl; intuition (try congruence; try lia).
Qed.

Lemma item_nonneg (vals : list Z) x :
  Forall (fun v => 0 <= v <= INT_MAX) vals -> 0 <= nth x vals 0.
Proof.
  intros Hall. destruct (Nat.lt_ge_cases x (length vals)) as [Hlt|Hge].
  - rewrite Forall_forall in Hall. apply Hall. now apply nth_In.
  - rewrite nth_overflow by assumption. lia.
Qed.

Lemma box_closed x y z :
  In (x, y, z) (box n j k) ->
  exists succs, expand order n j k prices calories x y z = Ok succs /\
                forall w, In w succs -> In w (box n j k).
Proof.
  intros Hin. apply in_box in Hin. destruct Hin as (Hx & Hy & Hz).
  destruct (Z.eq_dec x n) as [->|Hne].
  - exists []. split; [apply expand_last|intros w []].
  - exists (successors x y z). split; [apply expand_exact; lia|].
    intros w Hw. apply in_successors in Hw.
    pose proof (item_nonneg prices (Z.to_nat x) (valid_prices _ _ _ _ _ valid)).
    pose proof (item_nonneg calories (Z.to_nat x) (valid_calories _ _ _ _ _ valid)).
    destruct Hw as [->|(-> & Hy' & Hz')]; apply in_box; lia.
Qed.

Lemma box_origin : In (0, 0, 0) (box n j k).
Proof. destruct valid. apply in_box. lia. Qed.

Lemma box_in_table x y z : In (x, y, z) (box n j k) -> in_table x y z = true.
Proof. destruct valid. apply in_box_in_table; lia. Qed.

Lemma visits_in_box st :
  visits order n j k prices calories st -> In st (box n j k).
Proof.
  apply visits_in_cells; [exact box_origin|exact box_closed].
Qed.

(** Every state that the loop can push is the outcome of a choice. *)
Lemma visits_selects st :
  visits order n j k prices calories st ->
  exists choice,
    selects j k prices calories choice
      (Z.to_nat (fst (fst st))) (snd (fst st)) (snd st).
Proof.
  induction 1 as [|x y z succs w Hv IH Hex Hin].
  - exists (fun _ => false). simpl. destruct valid.
    split; [|split; reflexivity].
    intros m Hm. replace m with O by lia. simpl. lia.
  - destruct IH as (choice & Hsel). simpl in Hsel.
    pose proof (visits_in_box _ Hv) as Hb. apply in_box in Hb.
    destruct Hb as (Hx & Hy & Hz).
    destruct (Z.eq_dec x n) as [->|Hne].
    { rewrite expand_last in Hex. injection Hex as <-. destruct Hin. }
    rewrite expand_exact in Hex by lia. injection Hex as <-.
    apply in_successors in Hin.
    replace (Z.to_nat (x + 1)) with (S (Z.to_nat x)) in * by lia.
    destruct Hin as [->|(-> & Hy' & Hz')]; simpl.
    + exists (decide choice (Z.to_nat x) false).
      replace (Z.to_nat (x + 1)) with (S (Z.to_nat x)) by lia.
      pose proof (selects_decide j k prices calories choice _ y z false Hsel) as E.
      simpl in E. rewrite !Z.add_0_r in E. apply E. discriminate.
    + exists (decide choice (Z.to_nat x) true).
      replace (Z.to_nat (x + 1)) with (S (Z.to_nat x)) by lia.
      apply (selects_decide j k prices calories choice _ y z true Hsel).
      intros _. split; assumption.
Qed.

(** Every choice that stays within the budgets is followed by the loop. *)
Lemma selects_visits choice :
  (forall m, (m <= Z.to_nat n)%nat ->
     running_sum m choice prices <= j /\ running_sum m choice calories <= k) ->
  forall m, (m <= Z.to_nat n)%nat ->
    visits order n j k prices calories
      (Z.of_nat m, running_sum m choice prices, running_sum m choice calories).
Proof.
  intros Hpre. induction m as [|m IH]; intros Hm.
  - apply visits_origin.
  - specialize (IH ltac:(lia)).
    pose proof (visits_in_box _ IH) as Hb. apply in_box in Hb.
    destruct Hb as (Hx & Hy & Hz).
    eapply visits_next; [exact IH| |].
    + apply expand_exact; lia.
    + apply in_successors. rewrite Nat2Z.id.
      replace (Z.of_nat (S m)) with (Z.of_nat m + 1) by lia. simpl.
      destruct (choice m) eqn:Ec.
      * right. split; [reflexivity|].
        destruct (Hpre (S m) Hm) as [Py Pz]. simpl in Py, Pz.
        rewrite Ec in Py, Pz. split; assumption.
      * left. now rewrite !Z.add_0_r.
Qed.

Lemma visits_target_feasible :
  visits order n j k prices calories (n, j, k) <->
  feasible n j k prices calories.
Proof.
  split.
  - intros Hv. apply visits_selects in Hv. exact Hv.
  - intros (choice & Hpre & Hy & Hz).
    pose proof (selects_visits choice Hpre (Z.to_nat n) (Nat.le_refl _)) as Hv.
    rewrite Hy, Hz, Z2Nat.id in Hv; [exact Hv|].
    destruct valid. lia.
Qed.

(** On these inputs the search ends within [fuel_bound n j k] iterations and
    answers whether the target can be reached by a choice. *)
Lemma solve_with_feasible m0 fuel :
  fresh m0 ->
  (fuel_bound n j k <= fuel)%nat ->
  exists b, solve_with order n j k prices calories fuel m0 = Returns b /\
            (b = true <-> feasible n j k prices calories).
Proof.
  intros [Hempty Hfresh] Hfuel.
  destruct (solve_with_decides order n j k prices calories
              (valid_n _ _ _ _ _ valid) (box n j k)
              box_origin box_in_table box_closed m0 fuel Hempty Hfresh)
    as (b & Hb & Hiff).
  { destruct valid. rewrite box_fuel by lia. exact Hfuel. }
  exists b. split; [exact Hb|].
  rewrite Hiff. apply visits_target_feasible.
Qed.

End Exact.

(** ** The machines that a call goes through *)

(** The state that the next three pops yield. *)
Definition top_state (s : dfs_stack_t) : result state :=
  '(x, s) <- dfs_stack_pop s ;;
  '(y, s) <- dfs_stack_pop s ;;
  '(z, _) <- dfs_stack_pop s ;;
  Ok (x, y, z).

Section Trace.

Variable order : push_order.
Variables n j k : Z.
Variables prices calories : list Z.

(** One iteration of the loop leads from the machine [m] to [m']. *)
Definition iterates (m m' : machine) : Prop :=
  0 < offset (stack m) /\
  loop_body order n j k prices calories m = Ok (Continue m').

(** The machines at the head of the loop, from [m] on. *)
Inductive reaches (m : machine) : machine -> Prop :=
| reaches_here : reaches m m
| reaches_next m1 m2 : reaches m m1 -> iterates m1 m2 -> reaches m m2.

(** The machine after [i] iterations, when the loop gets that far. *)
Fixpoint advance (i : nat) (m : machine) : option machine :=
  match i with
  | O => Some m
  | S i' =>
    match advance i' m with
    | Some m1 =>
      if 0 <? offset (stack m1) then
        match loop_body order n j k prices calories m1 with
        | Ok (Continue m2) => Some m2
        | _ => None
        end
      else None
    | None => None
    end
  end.

Lemma advance_reaches i :
  forall m m', advance i m = Some m' -> reaches m m'.
Proof.
  induction i as [|i IH]; intros m m' H; simpl in H.
  - injection H as <-. constructor.
  - destruct (advance i m) as [m1|] eqn:E1; [|discriminate].
    destruct (Z.ltb_spec 0 (offset (stack m1))) as [Hpos|_]; [|discriminate].
    destruct (loop_body order n j k prices calories m1) as [[b|m2]|f] eqn:E2;
      try discriminate.
    injection H as <-. apply (reaches_next m m1); [now apply IH|].
    split; assumption.
Qed.

Lemma reaches_trans m1 m2 m3 : reaches m1 m2 -> reaches m2 m3 -> reaches m1 m3.
Proof.
  intros H12 H23. induction H23 as [|m m' _ IH Hit]; [assumption|].
  now apply (reaches_next m1 m).
Qed.

(** What an iteration that goes on has done, read off the code. *)
Lemma loop_body_continues m m' :
  loop_body order n j k prices calories m = Ok (Continue m') ->
  exists x y z s1 s2 s3,
    dfs_stack_pop (stack m) = Ok (x, s1) /\
    dfs_stack_pop s1 = Ok (y, s2) /\
    dfs_stack_pop s2 = Ok (z, s3) /\
    is_target n j k x y z = false /\
    in_table x y z = true /\
    ((table m x y z = BadPath /\ m' = {| stack := s3; table := table m |}) \/
     (table m x y z = Unknown /\ table m' = mark (table m) x y z BadPath)).
Proof.
  unfold loop_body.
  destruct (dfs_stack_pop (stack m)) as [[x s1]|f] eqn:E1; simpl; [|discriminate].
  destruct (dfs_stack_pop s1) as [[y s2]|f] eqn:E2; simpl; [|discriminate].
  destruct (dfs_stack_pop s2) as [[z s3]|f] eqn:E3; simpl; [|discriminate].
  fold (is_target n j k x y z).
  destruct (is_target n j k x y z) eqn:Et; [discriminate|].
  unfold table_get, table_set.
  destruct (in_table x y z) eqn:Ei; simpl; [|discriminate].
  intros H. exists x, y, z, s1, s2, s3.
  repeat (split; [first [reflexivity|assumption]|]).
  destruct (table m x y z) eqn:Em.
  - right. split; [reflexivity|].
    match type of H with
    | bind ?e _ = _ => destruct e as [s4|f]; simpl in H; [|discriminate]
    end.
    injection H as <-. reflexivity.
  - left. split; [reflexivity|]. now injection H as <-.
Qed.

(** A marked cell stays marked. *)
Lemma iterates_keeps_bad m m' x y z :
  iterates m m' -> table m x y z = BadPath -> table m' x y z = BadPath.
Proof.
  intros [_ Hb] Hbad. apply loop_body_continues in Hb.
  destruct Hb as (x' & y' & z' & s1 & s2 & s3 & _ & _ & _ & _ & _ & [[_ ->]|[_ Ht]]).
  - exact Hbad.
  - rewrite Ht. now apply mark_keeps_bad.
Qed.

Lemma reaches_keeps_bad m m' x y z :
  reaches m m' -> table m x y z = BadPath -> table m' x y z = BadPath.
Proof.
  induction 1 as [|m1 m2 _ IH Hit]; intros Hbad; [assumption|].
  eapply iterates_keeps_bad; eauto.
Qed.

(** An iteration changes at most the cell of the popped state, and only from
    [Unknown] to [BadPath]. *)
Lemma iterates_marks_unknown m m' x y z :
  iterates m m' -> table m' x y z <> table m x y z ->
  top_state (stack m) = Ok (x, y, z) /\
  table m x y z = Unknown /\ table m' x y z = BadPath.
Proof.
  intros [_ Hb] Hne. apply loop_body_continues in Hb.
  destruct Hb as (x' & y' & z' & s1 & s2 & s3 & E1 & E2 & E3 & _ & _ &
                  [[_ ->]|[Hu Ht]]).
  - now elim Hne.
  - rewrite Ht in Hne |- *.
    assert (E : (x, y, z) = (x', y', z')).
    { destruct (Z.eqb_spec x x') as [->|Nx];
        [destruct (Z.eqb_spec y y') as [->|Ny];
         [destruct (Z.eqb_spec z z') as [->|Nz]; [reflexivity|]|]|];
        elim Hne; apply mark_other; congruence. }
    injection E as -> -> ->.
    split; [|split; [exact Hu|apply mark_same]].
    unfold top_state. rewrite E1; simpl. rewrite E2; simpl. now rewrite E3.
Qed.

(** The cell of the target is never marked. *)
Definition target_unmarked (m : machine) : Prop :=
  in_table n j k = true -> table m n j k = Unknown.

Lemma iterates_target_unmarked m m' :
  iterates m m' -> target_unmarked m -> target_unmarked m'.
Proof.
  intros [_ Hb] Hu Hin. apply loop_body_continues in Hb.
  destruct Hb as (x & y & z & s1 & s2 & s3 & _ & _ & _ & Et & _ & [[_ ->]|[_ Ht]]).
  - now apply Hu.
  - rewrite Ht, mark_other; [now apply Hu|].
    intros E. injection E as <- <- <-.
    unfold is_target in Et. now rewrite !Z.eqb_refl in Et.
Qed.

Lemma reaches_target_unmarked m m' :
  reaches m m' -> target_unmarked m -> target_unmarked m'.
Proof.
  induction 1 as [|m1 m2 _ IH Hit]; intros Hu; [assumption|].
  eapply iterates_target_unmarked; eauto.
Qed.

(** A marked state on top of the stack is dropped: the iteration pops it and
    does nothing else. *)
Lemma marked_top_discarded m x y z s1 s2 s3 :
  target_unmarked m ->
  dfs_stack_pop (stack m) = Ok (x, s1) ->
  dfs_stack_pop s1 = Ok (y, s2) ->
  dfs_stack_pop s2 = Ok (z, s3) ->
  table_get (table m) x y z = Ok BadPath ->
  loop_body order n j k prices calories m =
  Ok (Continue {| stack := s3; table := table m |}).
Proof.
  intros Hu E1 E2 E3 Hg. unfold loop_body.
  rewrite E1; simpl. rewrite E2; simpl. rewrite E3; simpl.
  rewrite Hg. simpl.
  unfold table_get in Hg. destruct (in_table x y z) eqn:Ei; [|discriminate].
  injection Hg as Hb.
  destruct ((x =? n) && (y =? j) && (z =? k)) eqn:Et; [|reflexivity].
  rewrite !andb_true_iff, !Z.eqb_eq in Et. destruct Et as [[-> ->] ->].
  rewrite (Hu Ei) in Hb. discriminate.
Qed.

Lemma entry_table m0 m1 : entry m0 = Ok m1 -> table m1 = table m0.
Proof.
  unfold entry. destruct (push_state (stack m0) 0 0 0); simpl; [|discriminate].
  intros E. now injection E as <-.
Qed.

(** Every machine of the run keeps the depth-first shape of the stack, and
    its pending states stay inside any region closed under the pushes. *)
Lemma reaches_pending (region : state -> Prop) m1 m :
  0 <= n <= MAX_DEPTH_X - 1 ->
  (forall x y z succs w,
     region (x, y, z) ->
     expand order n j k prices calories x y z = Ok succs ->
     In w succs -> region w) ->
  reaches m1 m ->
  (exists sts, holds (stack m1) sts /\ stack_shape n sts /\ Forall region sts) ->
  exists sts, holds (stack m) sts /\ stack_shape n sts /\ Forall region sts.
Proof.
  intros Hn Hclosed Hr H1.
  induction Hr as [|m2 m3 _ IH [Hpos Hb]]; [assumption|].
  destruct IH as (sts & Hh & Hs & Hc).
  destruct sts as [|[[x y] z] rest].
  { apply holds_nil_offset in Hh. lia. }
  pose proof (shape_capacity n Hn _ _ _ _ Hs) as Hcap.
  pose proof (body_cases order n j k prices calories m2 x y z rest Hh Hcap) as V.
  rewrite Hb in V.
  inversion V as [| |m' Et Ei Em Ht Hh'| |m' succs Et Ei Em Ex Ht Hh']; subst.
  - exists rest. split; [assumption|].
    split; [exact (proj1 (stack_shape_below _ _ _ _ _ Hs))|now inversion Hc].
  - exists (succs ++ rest). split; [assumption|]. split.
    + destruct (expand_levels order n j k prices calories Hn x y z succs)
        as (Ha & Hl & Hx); [exact (proj1 Hs)|exact Ex|].
      eapply stack_shape_push; eassumption.
    + apply Forall_app. split; [|now inversion Hc].
      apply Forall_forall. intros w Hw.
      apply (Hclosed x y z succs w); [now inversion Hc|assumption|assumption].
Qed.

Lemma entry_pending (region : state -> Prop) m0 m1 m :
  0 <= n <= MAX_DEPTH_X - 1 ->
  (forall x y z succs w,
     region (x, y, z) ->
     expand order n j k prices calories x y z = Ok succs ->
     In w succs -> region w) ->
  region (0, 0, 0) ->
  offset (stack m0) = 0 ->
  entry m0 = Ok m1 ->
  reaches m1 m ->
  exists sts, holds (stack m) sts /\ stack_shape n sts /\ Forall region sts.
Proof.
  intros Hn Hclosed Ho Hempty He Hr.
  apply (reaches_pending region m1 m Hn Hclosed Hr).
  destruct (entry_holds m0 Hempty) as (m1' & He' & Hh & _).
  rewrite He in He'. injection He' as <-.
  exists [(0, 0, 0)]. split; [exact Hh|]. split.
  - simpl. split; [lia|trivial].
  - now constructor.
Qed.

End Trace.

(** ** Items that cost nothing *)

Section FreeItems.

Variable order : push_order.
Variables n j k : Z.
Variables prices calories : list Z.

Hypothesis n_range : 0 <= n <= MAX_DEPTH_X - 1.

Hypothesis free :
  forall x, 0 <= x < n ->
    array_get prices x = Ok 0 /\ array_get calories x = Ok 0.

(** The states with both sums at zero. *)
Definition line : list state := map (fun x => (x, 0, 0)) (range (n + 1)).

Lemma in_line x y z : In (x, y, z) line <-> 0 <= x <= n /\ y = 0 /\ z = 0.
Proof.
  unfold line. rewrite in_map_iff. split.
  - intros (x' & E & Hx). injection E as -> <- <-. apply in_range in Hx. lia.
  - intros (Hx & -> & ->). exists x. split; [reflexivity|apply in_range; lia].
Qed.

Lemma expand_line x :
  0 <= x <= n ->
  exists succs,
    expand order n j k prices calories x 0 0 = Ok succs /\
    (forall w, In w succs -> w = (x + 1, 0, 0) /\ x + 1 <= n) /\
    (x < n -> In (x + 1, 0, 0) succs).
Proof.
  intros Hx. unfold expand.
  rewrite int_add_exact by (unfold INT_MIN, INT_MAX, MAX_DEPTH_X in *; lia).
  destruct (Z.leb_spec (x + 1) n) as [Hle|Hgt].
  - destruct (free x) as [-> ->]; [lia|]. simpl.
    change (int_add 0 0) with 0.
    destruct ((0 <=? j) && (0 <=? k)), order; simpl;
      eexists; (split; [reflexivity|]); split;
        try (intros w Hw; simpl in Hw; intuition (subst; auto));
        intros _; simpl; auto.
  - exists []. split; [reflexivity|]. split; [intros w []|lia].
Qed.

Lemma line_closed x y z :
  In (x, y, z) line ->
  exists succs, expand order n j k prices calories x y z = Ok succs /\
                forall w, In w succs -> In w line.
Proof.
  intros Hin. apply in_line in Hin. destruct Hin as (Hx & -> & ->).
  destruct (expand_line x Hx) as (succs & Hex & Hall & _).
  exists succs. split; [exact Hex|].
  intros w Hw. destruct (Hall w Hw) as [-> Hle]. apply in_line. lia.
Qed.

Lemma line_origin : In (0, 0, 0) line.
Proof. apply in_line. lia. Qed.

Lemma line_in_table x y z : In (x, y, z) line -> in_table x y z = true.
Proof.
  intros Hin. apply in_line in Hin. destruct Hin as (Hx & -> & ->).
  unfold in_table, MAX_DEPTH_X in *.
  repeat (apply andb_true_intro; split);
    first [apply Z.leb_le | apply Z.ltb_lt]; try lia; reflexivity.
Qed.

Lemma visits_line m :
  (m <= Z.to_nat n)%nat ->
  visits order n j k prices calories (Z.of_nat m, 0, 0).
Proof.
  induction m as [|m IH]; intros Hm; [apply visits_origin|].
  destruct (expand_line (Z.of_nat m)) as (succs & Hex & _ & Hin); [lia|].
  replace (Z.of_nat (S m)) with (Z.of_nat m + 1) by lia.
  eapply visits_next; [apply IH; lia|exact Hex|apply Hin; lia].
Qed.

Lemma visits_target_free :
  visits order n j k prices calories (n, j, k) <-> j = 0 /\ k = 0.
Proof.
  split.
  - intros Hv.
    apply (visits_in_cells order n j k prices calories line
             line_origin line_closed) in Hv.
    apply in_line in Hv. tauto.
  - intros [Hj Hk].
    assert (E : (n, j, k) = (Z.of_nat (Z.to_nat n), 0, 0)).
    { rewrite Z2Nat.id by lia. congruence. }
    rewrite E. apply visits_line. lia.
Qed.

Lemma solve_with_free m0 fuel :
  fresh m0 ->
  (fuel_bound n 0 0 <= fuel)%nat ->
  exists b, solve_with order n j k prices calories fuel m0 = Returns b /\
            (b = true <-> j = 0 /\ k = 0).
Proof.
  intros [Hempty Hfresh] Hfuel.
  destruct (solve_with_decides order n j k prices calories n_range line
              line_origin line_in_table line_closed m0 fuel Hempty Hfresh)
    as (b & Hb & Hiff).
  { unfold line. rewrite length_map, range_length.
    unfold fuel_bound in Hfuel. lia. }
  exists b. split; [exact Hb|].
  rewrite Hiff. apply visits_target_free.
Qed.

End FreeItems.

(** ** From a run of known length to [solve_returns] *)

Lemma returns_unique order n j k prices calories m0 fuel b :
  solve_with order n j k prices calories fuel m0 = Returns b ->
  forall fuel' r,
    solve_with order n j k prices calories fuel' m0 = r ->
    r <> OutOfFuel -> r = Returns b.
Proof.
  intros Hb fuel' r Hr Hne.
  apply (solve_with_deterministic order n j k prices calories fuel' fuel m0);
    [assumption|assumption|assumption|discriminate].
Qed.

Lemma faults_never_returns order n j k prices calories m0 fuel f :
  solve_with order n j k prices calories fuel m0 = Faults f ->
  forall fuel' b,
    solve_with order n j k prices calories fuel' m0 <> Returns b.
Proof.
  intros Hf fuel' b Hb.
  pose proof (solve_with_deterministic order n j k prices calories
                fuel fuel' m0 _ _ Hf Hb) as E.
  discriminate E; discriminate.
Qed.

(** A run whose answer is characterised by [P] settles both answers. *)
Lemma decided_returns order n j k prices calories m0 fuel b (P : Prop) :
  solve_with order n j k prices calories fuel m0 = Returns b ->
  (b = true <-> P) ->
  ((exists f, solve_with order n j k prices calories f m0 = Returns true) <-> P) /\
  ((exists f, solve_with order n j k prices calories f m0 = Returns false) <-> ~ P).
Proof.
  intros Hb Hiff. split; split.
  - intros (f & Hf).
    pose proof (returns_unique _ _ _ _ _ _ _ _ _ Hb f _ Hf) as E.
    apply Hiff. assert (Returns true = Returns b) by (apply E; discriminate).
    congruence.
  - intros HP. exists fuel. apply Hiff in HP. now subst b.
  - intros (f & Hf) HP.
    pose proof (returns_unique _ _ _ _ _ _ _ _ _ Hb f _ Hf) as E.
    apply Hiff in HP. assert (Returns false = Returns b) by (apply E; discriminate).
    congruence.
  - intros HnP. exists fuel. destruct b; [|assumption].
    elim HnP. now apply Hiff.
Qed.

(** ** Concrete machines and inputs *)

(** The machine at the head of the loop when [solve] is entered with the
    globals as the C runtime leaves them. *)
Definition initial_entry : machine :=
  {| stack := {| offset := 3;
                 data := store (store (store (fun _ => 0) 0 0) 1 0) 2 0 |};
     table := fun _ _ _ => Unknown |}.

(** The machine after [i] iterations, or [m] itself when the loop does not
    get that far. *)
Definition machine_after (order : push_order) (n j k : Z)
  (prices calories : list Z) (i : nat) (m : machine) : machine :=
  match advance order n j k prices calories i m with
  | Some m' => m'
  | None => m
  end.

(** Scenario 1 after five iterations: the origin, [(1,0,0)], [(2,0,0)],
    [(3,0,0)] and [(3,1,1)] have been popped, and [(2,5,5)] is on top. *)
Definition scenario1_after_5 : machine :=
  machine_after BuyThenSkip 3 10 10 [5; 5; 1] [5; 5; 1] 5 initial_entry.

(** Scenario 2 after five iterations: [(2,2,2)], pushed twice, has been
    popped and marked once and is on top of the stack again. *)
Definition scenario2_after_5 : machine :=
  machine_after BuyThenSkip 2 3 3 [2; 2] [2; 2] 5 initial_entry.

Lemma initial_machine_fresh : fresh initial_machine.
Proof. split; [reflexivity|intros x y z _; reflexivity]. Qed.

Lemma initial_entry_ok : entry initial_machine = Ok initial_entry.
Proof. reflexivity. Qed.

Ltac concrete_input :=
  constructor; simpl;
  unfold MAX_DEPTH_X, MAX_DEPTH_Y, MAX_DEPTH_Z, INT_MAX;
  try lia; repeat constructor; lia.

Lemma top_state_holds s x y z rest :
  holds s ((x, y, z) :: rest) -> top_state s = Ok (x, y, z).
Proof.
  intros Hh.
  destruct (pop_state_holds _ _ _ _ _ Hh) as (s1 & s2 & s3 & E1 & E2 & E3 & _).
  unfold top_state. rewrite E1; simpl. rewrite E2; simpl. now rewrite E3.
Qed.

Lemma stack_shape_length n sts :
  0 <= n -> stack_shape n sts -> Z.of_nat (length sts) <= n + 2.
Proof.
  intros Hn Hs. destruct sts as [|[[x y] z] rest]; [simpl; lia|].
  apply stack_shape_below in Hs. simpl length. lia.
Qed.

Lemma all_zero_item n (vals : list Z) x :
  Z.of_nat (length vals) = n -> Forall (fun v => v = 0) vals ->
  0 <= x < n -> array_get vals x = Ok 0.
Proof.
  intros Hlen Hall Hx.
  assert (Hlt : (Z.to_nat x < length vals)%nat) by lia.
  apply array_get_nth; [lia|].
  rewrite (nth_error_nth' vals 0 Hlt). f_equal.
  rewrite Forall_forall in Hall. apply Hall. now apply nth_In.
Qed.

(** On inputs without wrap-around either order of the pushes settles both
    answers by feasibility. *)
Lemma solve_with_settles order n j k prices calories m0 :
  valid_input n j k prices calories ->
  no_overflow j k prices calories ->
  fresh m0 ->
  ((exists f, solve_with order n j k prices calories f m0 = Returns true) <->
   feasible n j k prices calories) /\
  ((exists f, solve_with order n j k prices calories f m0 = Returns false) <->
   ~ feasible n j k prices calories).
Proof.
  intros Hv Hb Hf.
  destruct (solve_with_feasible order n j k prices calories Hv Hb m0
              (fuel_bound n j k) Hf (Nat.le_refl _)) as (b & Hr & Hiff).
  exact (decided_returns _ _ _ _ _ _ _ _ _ _ Hr Hiff).
Qed.

Lemma solve_with_stable order n j k prices calories m0 :
  valid_input n j k prices calories ->
  no_overflow j k prices calories ->
  fresh m0 ->
  exists b,
    (b = true <-> feasible n j k prices calories) /\
    forall fuel, (fuel_bound n j k <= fuel)%nat ->
      solve_with order n j k prices calories fuel m0 = Returns b.
Proof.
  intros Hv Hb Hf.
  destruct (solve_with_feasible order n j k prices calories Hv Hb m0
              (fuel_bound n j k) Hf (Nat.le_refl _)) as (b & Hr & Hiff).
  exists b. split; [exact Hiff|].
  intros fuel Hfuel.
  replace fuel with (fuel_bound n j k + (fuel - fuel_bound n j k))%nat by lia.
  apply solve_with_more_fuel; [exact Hr|discriminate].
Qed.

(** * The claims *)

(** ** C1: [solve] returns true exactly when a choice exists *)

(** C1, as stated, fails.  With [n = 3], [j = 2], [k = 0], prices
    [1, 1, INT_MAX] and calories all zero, buying the first two items meets
    the targets.  But the loop, at the state [(2, 1, 0)], adds [INT_MAX] to
    [1]; the sum wraps to [INT_MIN], passes the test [new_y <= j], and the
    state [(3, INT_MIN, 0)] is pushed.  It is popped before the branch of the
    solution is explored, and [table[3][INT_MIN][0]] is outside the table:
    the call does not return true. *)
Lemma solve_iff_feasible_counterexample :
  ~ (forall n j k prices calories m0,
       valid_input n j k prices calories ->
       fresh m0 ->
       (solve_returns m0 n j k prices calories true <->
        feasible n j k prices calories)).
Proof.
  intros H.
  destruct (H 3 2 0 [1; 1; INT_MAX] [0; 0; 0] initial_machine) as [_ Hret].
  - concrete_input.
  - exact initial_machine_fresh.
  - destruct Hret as [fuel Hf].
    + exists (fun i => Nat.ltb i 2). split; [|split; reflexivity].
      intros m Hm. change (Z.to_nat 3) with 3%nat in Hm.
      do 4 (destruct m as [|m]; [simpl; lia|]). lia.
    + revert Hf.
      apply (faults_never_returns BuyThenSkip 3 2 0 [1; 1; INT_MAX] [0; 0; 0]
               initial_machine 20 TableOutOfBounds).
      vm_compute. reflexivity.
Qed.

(** C1, amended: for every valid input on which no sum within budget plus an
    item exceeds [INT_MAX] (that is [j + prices[i] <= INT_MAX] and
    [k + calories[i] <= INT_MAX] for every [i]), with the table all [Unknown]
    and the stack empty at entry, [solve] returns true if and only if some
    0/1 choice for the items keeps the running sums within [j] and [k] at
    every prefix and ends on exactly [j] and [k]; and it returns false if and
    only if there is no such choice. *)
Theorem solve_iff_feasible n j k prices calories m0 :
  valid_input n j k prices calories ->
  no_overflow j k prices calories ->
  fresh m0 ->
  (solve_returns m0 n j k prices calories true <->
   feasible n j k prices calories) /\
  (solve_returns m0 n j k prices calories false <->
   ~ feasible n j k prices calories).
Proof.
  intros Hv Hb Hf.
  exact (solve_with_settles BuyThenSkip n j k prices calories m0 Hv Hb Hf).
Qed.

Lemma solve_iff_feasible_witness :
  (solve_returns initial_machine 3 10 10 [5; 5; 1] [5; 5; 1] true <->
   feasible 3 10 10 [5; 5; 1] [5; 5; 1]) /\
  (solve_returns initial_machine 3 10 10 [5; 5; 1] [5; 5; 1] false <->
   ~ feasible 3 10 10 [5; 5; 1] [5; 5; 1]).
Proof.
  apply solve_iff_feasible.
  - concrete_input.
  - split; repeat constructor; unfold INT_MAX; lia.
  - split; [reflexivity|intros x y z _; reflexivity].
Defined.

(** ** C2: the loop terminates *)

(** C2, as stated, fails.  With [n = 2], [j = 2], [k = 0], prices
    [1, INT_MAX] and calories all zero, the sum [1 + INT_MAX] wraps to
    [INT_MIN] at the state [(1, 1, 0)], the state [(2, INT_MIN, 0)] is pushed
    and later popped, and the read of [table[2][INT_MIN][0]] is outside the
    table: the call returns neither true nor false. *)
Lemma solve_terminates_counterexample :
  ~ (forall n j k prices calories m0,
       valid_input n j k prices calories ->
       fresh m0 ->
       exists b, solve_returns m0 n j k prices calories b).
Proof.
  intros H.
  destruct (H 2 2 0 [1; INT_MAX] [0; 0] initial_machine) as [b [fuel Hf]].
  - concrete_input.
  - exact initial_machine_fresh.
  - revert Hf.
    apply (faults_never_returns BuyThenSkip 2 2 0 [1; INT_MAX] [0; 0]
             initial_machine 20 TableOutOfBounds).
    vm_compute. reflexivity.
Qed.

(** C2, amended: for every valid input on which no sum within budget plus an
    item exceeds [INT_MAX], with the table all [Unknown] and the stack empty
    at entry, the loop of [solve] ends after at most
    [2 * (n+1) * (j+1) * (k+1) + 2] iterations, two for each cell of the part
    of the table in use: it returns true or false, and the value does not
    depend on the number of iterations allowed beyond that bound. *)
Theorem solve_terminates n j k prices calories m0 :
  valid_input n j k prices calories ->
  no_overflow j k prices calories ->
  fresh m0 ->
  exists b, forall fuel, (fuel_bound n j k <= fuel)%nat ->
    solve fuel m0 n j k prices calories = Returns b.
Proof.
  intros Hv Hb Hf.
  destruct (solve_with_stable BuyThenSkip n j k prices calories m0 Hv Hb Hf)
    as (b & _ & Hall).
  exists b. exact Hall.
Qed.

Lemma solve_terminates_witness :
  exists b, forall fuel, (fuel_bound 2 3 3 <= fuel)%nat ->
    solve fuel initial_machine 2 3 3 [2; 2] [2; 2] = Returns b.
Proof.
  apply solve_terminates.
  - concrete_input.
  - split; repeat constructor; unfold INT_MAX; lia.
  - split; [reflexivity|intros x y z _; reflexivity].
Defined.

(** ** C3: the stack stays within its capacity *)

(** C3: during a call of [solve] with [0 <= n <= MAX_DEPTH_X - 1] and the
    stack empty at entry, whatever the targets, the items and the table, no
    [dfs_stack_push] meets a full stack and no [dfs_stack_pop] an empty one:
    a run of any length ends in neither fault.  At the head of every
    iteration the stack holds whole states (its offset is a multiple of
    three) and leaves room for the six pushes that may follow the three pops,
    because it never holds more than [n + 2] states. *)
Theorem stack_never_overflows_nor_underflows n j k prices calories m0 :
  0 <= n <= MAX_DEPTH_X - 1 ->
  offset (stack m0) = 0 ->
  (forall fuel,
     solve fuel m0 n j k prices calories <> Faults StackOverflow /\
     solve fuel m0 n j k prices calories <> Faults StackUnderflow) /\
  (forall m1 m,
     entry m0 = Ok m1 ->
     reaches BuyThenSkip n j k prices calories m1 m ->
     offset (stack m) mod 3 = 0 /\
     0 <= offset (stack m) <= 3 * (n + 2) /\
     offset (stack m) + 3 <= STACK_SLOTS).
Proof.
  intros Hn Hempty. split.
  - intros fuel. unfold solve, solve_with.
    destruct (entry_holds m0 Hempty) as (m & Em & Hh & _). rewrite Em.
    apply (solve_loop_stack_safe BuyThenSkip n j k prices calories Hn fuel m
             [(0, 0, 0)] Hh).
    simpl. split; [lia|trivial].
  - intros m1 m He Hr.
    destruct (entry_pending BuyThenSkip n j k prices calories (fun _ => True)
                m0 m1 m Hn) as (sts & Hh & Hs & _); auto.
    pose proof (stack_shape_length n sts (proj1 Hn) Hs) as Hl.
    rewrite (holds_offset _ _ Hh).
    split; [rewrite Z.mul_comm; apply Z.mod_mul; lia|].
    unfold STACK_SLOTS, MAX_DEPTH_STACK, MAX_DEPTH_X, MAX_DEPTH_Y, MAX_DEPTH_Z in *.
    lia.
Qed.

Lemma stack_never_overflows_nor_underflows_witness :
  (forall fuel,
     solve fuel initial_machine 3 10 10 [5; 5; 1] [5; 5; 1] <> Faults StackOverflow /\
     solve fuel initial_machine 3 10 10 [5; 5; 1] [5; 5; 1] <> Faults StackUnderflow) /\
  (forall m1 m,
     entry initial_machine = Ok m1 ->
     reaches BuyThenSkip 3 10 10 [5; 5; 1] [5; 5; 1] m1 m ->
     offset (stack m) mod 3 = 0 /\
     0 <= offset (stack m) <= 3 * (3 + 2) /\
     offset (stack m) + 3 <= STACK_SLOTS).
Proof.
  apply stack_never_overflows_nor_underflows.
  - unfold MAX_DEPTH_X. lia.
  - reflexivity.
Defined.

(** ** C4: popped states are inside the table *)

(** C4, as stated, fails.  With [n = 2], [j = 2], [k = 0], prices
    [1, INT_MAX] and calories all zero, the fifth iteration leaves the state
    [(2, INT_MIN, 0)] on top of the stack: its [y] is negative, because
    [1 + INT_MAX] wrapped around and passed the test [new_y <= j]. *)
Lemma popped_states_in_table_counterexample :
  ~ (forall n j k prices calories m0 m1 m,
       valid_input n j k prices calories ->
       fresh m0 ->
       entry m0 = Ok m1 ->
       reaches BuyThenSkip n j k prices calories m1 m ->
       0 < offset (stack m) ->
       exists x y z,
         top_state (stack m) = Ok (x, y, z) /\
         0 <= x <= n /\ 0 <= y <= j /\ 0 <= z <= k).
Proof.
  intros H.
  assert (Hm : exists m,
             advance BuyThenSkip 2 2 0 [1; INT_MAX] [0; 0] 5 initial_entry = Some m /\
             offset (stack m) = 3 /\
             top_state (stack m) = Ok (2, INT_MIN, 0)).
  { eexists. split; [vm_compute; reflexivity|].
    split; vm_compute; reflexivity. }
  destruct Hm as (m & Ha & Ho & Ht).
  destruct (H 2 2 0 [1; INT_MAX] [0; 0] initial_machine initial_entry m)
    as (x & y & z & Ht' & _ & Hy & _).
  - concrete_input.
  - exact initial_machine_fresh.
  - reflexivity.
  - exact (advance_reaches _ _ _ _ _ _ _ _ _ Ha).
  - lia.
  - rewrite Ht in Ht'. injection Ht' as <- <- <-. unfold INT_MIN in Hy. lia.
Qed.

(** C4, amended: for every valid input on which no sum within budget plus an
    item exceeds [INT_MAX], with the stack empty at entry, every state
    [(x, y, z)] that the loop of [solve] pops satisfies [0 <= x <= n],
    [0 <= y <= j] and [0 <= z <= k], so that [table[x][y][z]] is read and
    written inside the table. *)
Theorem popped_states_in_table n j k prices calories m0 m1 m :
  valid_input n j k prices calories ->
  no_overflow j k prices calories ->
  offset (stack m0) = 0 ->
  entry m0 = Ok m1 ->
  reaches BuyThenSkip n j k prices calories m1 m ->
  0 < offset (stack m) ->
  exists x y z,
    top_state (stack m) = Ok (x, y, z) /\
    0 <= x <= n /\ 0 <= y <= j /\ 0 <= z <= k /\
    in_table x y z = true.
Proof.
  intros Hv Hb Hempty He Hr Hpos.
  destruct (entry_pending BuyThenSkip n j k prices calories
              (fun st => In st (box n j k)) m0 m1 m (valid_n _ _ _ _ _ Hv))
    as (sts & Hh & _ & Hall); try assumption.
  - intros x y z succs w Hin Hex Hw.
    destruct (box_closed BuyThenSkip n j k prices calories Hv Hb x y z Hin)
      as (succs' & Hex' & Hcl).
    rewrite Hex in Hex'. injection Hex' as <-. now apply Hcl.
  - exact (box_origin n j k prices calories Hv).
  - destruct sts as [|[[x y] z] rest].
    + apply holds_nil_offset in Hh. lia.
    + exists x, y, z. split; [now apply (top_state_holds _ _ _ _ rest)|].
      inversion_clear Hall as [|? ? Hin _].
      pose proof (box_in_table n j k prices calories Hv x y z Hin) as Hi.
      apply in_box in Hin. tauto.
Qed.

Lemma popped_states_in_table_witness :
  top_state (stack scenario1_after_5) = Ok (2, 5, 5) /\
  exists x y z,
    top_state (stack scenario1_after_5) = Ok (x, y, z) /\
    0 <= x <= 3 /\ 0 <= y <= 10 /\ 0 <= z <= 10 /\
    in_table x y z = true.
Proof.
  split; [vm_compute; reflexivity|].
  apply (popped_states_in_table 3 10 10 [5; 5; 1] [5; 5; 1]
           initial_machine initial_entry scenario1_after_5).
  - concrete_input.
  - split; repeat constructor; unfold INT_MAX; lia.
  - reflexivity.
  - reflexivity.
  - apply (advance_reaches BuyThenSkip 3 10 10 [5; 5; 1] [5; 5; 1] 5).
    reflexivity.
  - vm_compute. reflexivity.
Defined.

(** ** C5: marked states are never expanded again *)

(** C5: in a call of [solve] entered with the table all [Unknown], at every
    machine [m] that the loop reaches: (1) if the cell [table[x][y][z]] of
    the state on top of the stack is [BadPath], the iteration pops the state
    and does nothing else (no push, no write to the table); (2) a cell that
    is [BadPath] is [BadPath] at every later machine of the call; (3) an
    iteration changes no cell other than the one of the state it popped, and
    that one only from [Unknown] to [BadPath].  By (2) and (3) a cell goes
    from [Unknown] to [BadPath] at most once and never back. *)
Theorem dead_states_never_reexpanded n j k prices calories m0 m1 m :
  (forall x y z, in_table x y z = true -> table m0 x y z = Unknown) ->
  entry m0 = Ok m1 ->
  reaches BuyThenSkip n j k prices calories m1 m ->
  (forall x y z s1 s2 s3,
     dfs_stack_pop (stack m) = Ok (x, s1) ->
     dfs_stack_pop s1 = Ok (y, s2) ->
     dfs_stack_pop s2 = Ok (z, s3) ->
     in_table x y z = true ->
     table m x y z = BadPath ->
     loop_body BuyThenSkip n j k prices calories m =
     Ok (Continue {| stack := s3; table := table m |})) /\
  (forall m' x y z,
     reaches BuyThenSkip n j k prices calories m m' ->
     table m x y z = BadPath -> table m' x y z = BadPath) /\
  (forall m' x y z,
     iterates BuyThenSkip n j k prices calories m m' ->
     table m' x y z <> table m x y z ->
     top_state (stack m) = Ok (x, y, z) /\
     table m x y z = Unknown /\ table m' x y z = BadPath).
Proof.
  intros Hfresh He Hr.
  assert (Hu : target_unmarked n j k m).
  { apply (reaches_target_unmarked BuyThenSkip n j k prices calories m1 m Hr).
    intros Hin. rewrite (entry_table _ _ He). now apply Hfresh. }
  split; [|split].
  - intros x y z s1 s2 s3 E1 E2 E3 Hin Hbad.
    apply (marked_top_discarded BuyThenSkip n j k prices calories m x y z s1 s2 s3);
      try assumption.
    unfold table_get. now rewrite Hin, Hbad.
  - intros m' x y z. apply reaches_keeps_bad.
  - intros m' x y z. apply iterates_marks_unknown.
Qed.

Lemma dead_states_never_reexpanded_witness :
  top_state (stack scenario2_after_5) = Ok (2, 2, 2) /\
  table scenario2_after_5 2 2 2 = BadPath /\
  loop_body BuyThenSkip 2 3 3 [2; 2] [2; 2] scenario2_after_5 =
  Ok (Continue {| stack := {| offset := 0;
                              data := data (stack scenario2_after_5) |};
                  table := table scenario2_after_5 |}) /\
  (forall m' x y z,
     reaches BuyThenSkip 2 3 3 [2; 2] [2; 2] scenario2_after_5 m' ->
     table scenario2_after_5 x y z = BadPath -> table m' x y z = BadPath) /\
  (forall m' x y z,
     iterates BuyThenSkip 2 3 3 [2; 2] [2; 2] scenario2_after_5 m' ->
     table m' x y z <> table scenario2_after_5 x y z ->
     top_state (stack scenario2_after_5) = Ok (x, y, z) /\
     table scenario2_after_5 x y z = Unknown /\ table m' x y z = BadPath).
Proof.
  destruct (dead_states_never_reexpanded 2 3 3 [2; 2] [2; 2]
              initial_machine initial_entry scenario2_after_5)
    as (Hdrop & Hkeep & Honce).
  - intros x y z _. reflexivity.
  - reflexivity.
  - apply (advance_reaches BuyThenSkip 2 3 3 [2; 2] [2; 2] 5). reflexivity.
  - split; [vm_compute; reflexivity|].
    split; [vm_compute; reflexivity|].
    split; [|split; assumption].
    apply (Hdrop 2 2 2
             {| offset := 2; data := data (stack scenario2_after_5) |}
             {| offset := 1; data := data (stack scenario2_after_5) |}
             {| offset := 0; data := data (stack scenario2_after_5) |});
      reflexivity.
Defined.

(** ** C6: the order of the two pushes *)

(** C6, as stated, fails.  With [n = 2], [j = 1], [k = 0], prices
    [1, INT_MAX] and calories all zero, [solve] pops the target [(2, 1, 0)]
    before the wrapped state [(2, INT_MIN, 0)] that lies under it and
    returns true; with Skip pushed before Buy the wrapped state is on top, is
    popped first, and the read of [table[2][INT_MIN][0]] is outside the
    table: that variant does not return true. *)
Lemma push_order_irrelevant_counterexample :
  ~ (forall n j k prices calories m0 b,
       valid_input n j k prices calories ->
       fresh m0 ->
       (solve_returns m0 n j k prices calories b <->
        solve_skip_first_returns m0 n j k prices calories b)).
Proof.
  intros H.
  destruct (H 2 1 0 [1; INT_MAX] [0; 0] initial_machine true) as [Hfwd _].
  - concrete_input.
  - exact initial_machine_fresh.
  - destruct Hfwd as [fuel Hf].
    + exists 20%nat. vm_compute. reflexivity.
    + revert Hf.
      apply (faults_never_returns SkipThenBuy 2 1 0 [1; INT_MAX] [0; 0]
               initial_machine 20 TableOutOfBounds).
      vm_compute. reflexivity.
Qed.

(** C6, amended: for every valid input on which no sum within budget plus an
    item exceeds [INT_MAX], with the table all [Unknown] and the stack empty
    at entry, [solve] and the variant that pushes Skip before Buy return the
    same boolean, each within [fuel_bound n j k] iterations. *)
Theorem push_order_irrelevant n j k prices calories m0 :
  valid_input n j k prices calories ->
  no_overflow j k prices calories ->
  fresh m0 ->
  exists b, forall fuel, (fuel_bound n j k <= fuel)%nat ->
    solve fuel m0 n j k prices calories = Returns b /\
    solve_skip_first fuel m0 n j k prices calories = Returns b.
Proof.
  intros Hv Hb Hf.
  destruct (solve_with_stable BuyThenSkip n j k prices calories m0 Hv Hb Hf)
    as (b1 & Hiff1 & Hall1).
  destruct (solve_with_stable SkipThenBuy n j k prices calories m0 Hv Hb Hf)
    as (b2 & Hiff2 & Hall2).
  assert (E : b1 = b2).
  { destruct b1, b2; try reflexivity.
    - symmetry. apply Hiff2. now apply Hiff1.
    - apply Hiff1. now apply Hiff2. }
  subst b2. exists b1. intros fuel Hfuel.
  split; [now apply Hall1|now apply Hall2].
Qed.

Lemma push_order_irrelevant_witness :
  exists b, forall fuel, (fuel_bound 3 10 10 <= fuel)%nat ->
    solve fuel initial_machine 3 10 10 [5; 5; 1] [5; 5; 1] = Returns b /\
    solve_skip_first fuel initial_machine 3 10 10 [5; 5; 1] [5; 5; 1] = Returns b.
Proof.
  apply push_order_irrelevant.
  - concrete_input.
  - split; repeat constructor; unfold INT_MAX; lia.
  - split; [reflexivity|intros x y z _; reflexivity].
Defined.

(** ** C7: no items *)

(** C7: with [n = 0], whatever the targets and the arrays, and with the table
    all [Unknown] and the stack empty at entry, [solve] returns true if and
    only if [j = 0] and [k = 0], and returns false otherwise. *)
Theorem solve_no_items j k prices calories m0 :
  fresh m0 ->
  (solve_returns m0 0 j k prices calories true <-> j = 0 /\ k = 0) /\
  (solve_returns m0 0 j k prices calories false <-> ~ (j = 0 /\ k = 0)).
Proof.
  intros Hf.
  assert (Hn : 0 <= 0 <= MAX_DEPTH_X - 1) by (unfold MAX_DEPTH_X; lia).
  destruct (solve_with_free BuyThenSkip 0 j k prices calories Hn) with
    (m0 := m0) (fuel := fuel_bound 0 0 0) as (b & Hr & Hiff);
    [intros x Hx; lia|exact Hf|apply Nat.le_refl|].
  exact (decided_returns _ _ _ _ _ _ _ _ _ _ Hr Hiff).
Qed.

Lemma solve_no_items_witness :
  (solve_returns initial_machine 0 4 7 [] [] true <-> 4 = 0 /\ 7 = 0) /\
  (solve_returns initial_machine 0 4 7 [] [] false <-> ~ (4 = 0 /\ 7 = 0)).
Proof.
  apply solve_no_items.
  split; [reflexivity|intros x y z _; reflexivity].
Defined.

(** ** C8: items that cost nothing *)

(** C8: for every [n] with [0 <= n <= MAX_DEPTH_X - 1] and every list of [n]
    items whose prices and calories are all zero, whatever the targets, with
    the table all [Unknown] and the stack empty at entry, [solve] returns
    true if and only if [j = 0] and [k = 0], and returns false otherwise. *)
Theorem solve_free_items n j k prices calories m0 :
  0 <= n <= MAX_DEPTH_X - 1 ->
  Z.of_nat (length prices) = n ->
  Z.of_nat (length calories) = n ->
  Forall (fun p => p = 0) prices ->
  Forall (fun c => c = 0) calories ->
  fresh m0 ->
  (solve_returns m0 n j k prices calories true <-> j = 0 /\ k = 0) /\
  (solve_returns m0 n j k prices calories false <-> ~ (j = 0 /\ k = 0)).
Proof.
  intros Hn Lp Lc Zp Zc Hf.
  destruct (solve_with_free BuyThenSkip n j k prices calories Hn) with
    (m0 := m0) (fuel := fuel_bound n 0 0) as (b & Hr & Hiff);
    [|exact Hf|apply Nat.le_refl|].
  - intros x Hx. split; now apply (all_zero_item n).
  - exact (decided_returns _ _ _ _ _ _ _ _ _ _ Hr Hiff).
Qed.

Lemma solve_free_items_witness :
  (solve_returns initial_machine 3 0 0 [0; 0; 0] [0; 0; 0] true <-> 0 = 0 /\ 0 = 0) /\
  (solve_returns initial_machine 3 0 0 [0; 0; 0] [0; 0; 0] false <-> ~ (0 = 0 /\ 0 = 0)).
Proof.
  apply solve_free_items.
  - unfold MAX_DEPTH_X. lia.
  - reflexivity.
  - reflexivity.
  - repeat constructor.
  - repeat constructor.
  - split; [reflexivity|intros x y z _; reflexivity].
Defined.

(** ** C9 and C10: the two scenarios *)

(** C9: with [n = 3], [j = 10], [k = 10] and the items [(5,5), (5,5), (1,1)],
    the table all [Unknown] and the stack empty at entry, [solve] returns
    true. *)
Theorem scenario_two_of_three m0 :
  fresh m0 ->
  solve_returns m0 3 10 10 [5; 5; 1] [5; 5; 1] true.
Proof.
  intros Hf.
  apply (solve_with_settles BuyThenSkip 3 10 10 [5; 5; 1] [5; 5; 1] m0).
  - concrete_input.
  - split; repeat constructor; unfold INT_MAX; lia.
  - exact Hf.
  - exists (fun i => Nat.ltb i 2). split; [|split; reflexivity].
    intros m Hm. change (Z.to_nat 3) with 3%nat in Hm.
    do 4 (destruct m as [|m]; [simpl; lia|]). lia.
Qed.

Lemma scenario_two_of_three_witness :
  solve_returns initial_machine 3 10 10 [5; 5; 1] [5; 5; 1] true.
Proof.
  apply scenario_two_of_three.
  split; [reflexivity|intros x y z _; reflexivity].
Defined.

(** C10: with [n = 2], [j = 3], [k = 3] and the items [(2,2), (2,2)], the
    table all [Unknown] and the stack empty at entry, [solve] returns
    false. *)
Theorem scenario_no_exact_sum m0 :
  fresh m0 ->
  solve_returns m0 2 3 3 [2; 2] [2; 2] false.
Proof.
  intros Hf.
  apply (solve_with_settles BuyThenSkip 2 3 3 [2; 2] [2; 2] m0).
  - concrete_input.
  - split; repeat constructor; unfold INT_MAX; lia.
  - exact Hf.
  - intros (choice & _ & Hy & _).
    change (Z.to_nat 2) with 2%nat in Hy. simpl in Hy.
    destruct (choice 0%nat), (choice 1%nat); simpl in Hy; lia.
Qed.

Lemma scenario_no_exact_sum_witness :
  solve_returns initial_machine 2 3 3 [2; 2] [2; 2] false.
Proof.
  apply scenario_no_exact_sum.
  split; [reflexivity|intros x y z _; reflexivity].
Defined.

(** * Further properties of the code *)

(** ** The stack on its own *)

(** Pushes of a sequence of items, the first of the list first. *)
Fixpoint push_all (s : dfs_stack_t) (items : list Z) : result dfs_stack_t :=
  match items with
  | [] => Ok s
  | v :: rest => s' <- dfs_stack_push s v ;; push_all s' rest
  end.

(** [c] pops in a row, with the items in the order they come out. *)
Fixpoint pop_n (c : nat) (s : dfs_stack_t) : result (list Z * dfs_stack_t) :=
  match c with
  | O => Ok ([], s)
  | S c' =>
    '(v, s1) <- dfs_stack_pop s ;;
    '(vs, s2) <- pop_n c' s1 ;;
    Ok (v :: vs, s2)
  end.

Lemma push_all_contents items :
  forall s,
    0 <= offset s ->
    offset s + Z.of_nat (length items) <= STACK_SLOTS ->
    exists s', push_all s items = Ok s' /\
               offset s' = offset s + Z.of_nat (length items) /\
               contents s' = rev items ++ contents s.
Proof.
  induction items as [|v rest IH]; intros s H0 Hcap.
  - exists s. simpl. repeat split; lia.
  - simpl length in Hcap.
    destruct (push_contents s v H0) as (s1 & E1 & O1 & C1); [lia|].
    destruct (IH s1) as (s2 & E2 & O2 & C2); [lia|lia|].
    exists s2. simpl. rewrite E1. simpl. split; [exact E2|].
    split; [simpl length; lia|].
    rewrite C2, C1, <- app_assoc. reflexivity.
Qed.

Lemma pop_n_contents l :
  forall s rest,
    0 <= offset s ->
    contents s = l ++ rest ->
    exists s', pop_n (length l) s = Ok (l, s') /\
               offset s' = offset s - Z.of_nat (length l) /\
               data s' = data s /\
               contents s' = rest.
Proof.
  induction l as [|v l IH]; intros s rest H0 Hc.
  - exists s. simpl. repeat split; [lia|exact Hc].
  - simpl in Hc.
    destruct (pop_contents s v _ H0 Hc) as (s1 & E1 & O1 & P1 & C1).
    destruct (IH s1 rest P1 C1) as (s2 & E2 & O2 & D2 & C2).
    exists s2. simpl. rewrite E1. simpl. rewrite E2. simpl.
    split; [reflexivity|]. split; [lia|]. split; [|exact C2].
    rewrite D2. unfold dfs_stack_pop in E1.
    destruct (0 <? offset s); [|discriminate].
    injection E1 as _ <-. reflexivity.
Qed.

Lemma slots_agree d d' h :
  slots d h = slots d' h ->
  forall i, 0 <= i < Z.of_nat h -> d i = d' i.
Proof.
  induction h as [|h IH]; intros E i Hi; [lia|].
  simpl in E. injection E as E0 E1.
  destruct (Z.eq_dec i (Z.of_nat h)) as [->|Hne]; [exact E0|].
  apply IH; [exact E1|lia].
Qed.

(** X1. Last in, first out: pushing a sequence of items on a stack with room
    for them and popping as many gives the items back in reverse order, puts
    the offset back, and leaves every slot below the original offset as it
    was. *)
Theorem stack_last_in_first_out s items :
  0 <= offset s ->
  offset s + Z.of_nat (length items) <= STACK_SLOTS ->
  exists s1 s2,
    push_all s items = Ok s1 /\
    offset s1 = offset s + Z.of_nat (length items) /\
    pop_n (length items) s1 = Ok (rev items, s2) /\
    offset s2 = offset s /\
    forall i, 0 <= i < offset s -> data s2 i = data s i.
Proof.
  intros H0 Hcap.
  destruct (push_all_contents items s H0 Hcap) as (s1 & E1 & O1 & C1).
  destruct (pop_n_contents (rev items) s1 (contents s)) as (s2 & E2 & O2 & D2 & C2);
    [lia|exact C1|].
  rewrite length_rev in E2, O2.
  exists s1, s2. repeat split; try assumption; [lia|].
  intros i Hi. unfold contents in C2.
  replace (offset s2) with (offset s) in C2 by lia.
  apply (slots_agree _ _ _ C2). lia.
Qed.

Lemma stack_last_in_first_out_witness :
  exists s1 s2,
    push_all (stack initial_entry) [7; 8; 9] = Ok s1 /\
    offset s1 = offset (stack initial_entry) + Z.of_nat (length [7; 8; 9]) /\
    pop_n (length [7; 8; 9]) s1 = Ok (rev [7; 8; 9], s2) /\
    offset s2 = offset (stack initial_entry) /\
    forall i, 0 <= i < offset (stack initial_entry) ->
              data s2 i = data (stack initial_entry) i.
Proof.
  apply stack_last_in_first_out.
  - simpl. lia.
  - vm_compute. discriminate.
Defined.

(** X2. A pop leaves the popped item in its slot: pushing the same item
    again gives back the stack as it was, offset and every slot. *)
Theorem pop_then_push_restores s v s1 :
  offset s <= STACK_SLOTS ->
  dfs_stack_pop s = Ok (v, s1) ->
  exists s2,
    dfs_stack_push s1 v = Ok s2 /\
    offset s2 = offset s /\
    forall i, data s2 i = data s i.
Proof.
  intros Hcap Hpop. unfold dfs_stack_pop in Hpop.
  destruct (Z.ltb_spec 0 (offset s)) as [Hpos|_]; [|discriminate].
  injection Hpop as <- <-. unfold dfs_stack_push. simpl.
  destruct (Z.ltb_spec (offset s - 1) STACK_SLOTS) as [_|C]; [|lia].
  eexists. split; [reflexivity|]. simpl. split; [lia|].
  intros i. unfold store. destruct (Z.eqb_spec i (offset s - 1)); congruence.
Qed.

Lemma pop_then_push_restores_witness :
  exists s2,
    dfs_stack_push {| offset := 2; data := data (stack initial_entry) |} 0 = Ok s2 /\
    offset s2 = offset (stack initial_entry) /\
    forall i, data s2 i = data (stack initial_entry) i.
Proof.
  apply (pop_then_push_restores (stack initial_entry) 0).
  - vm_compute. discriminate.
  - reflexivity.
Defined.

Lemma push_state_top s x y z :
  0 <= offset s ->
  offset s + 3 <= STACK_SLOTS ->
  exists s',
    push_state s x y z = Ok s' /\
    offset s' = offset s + 3 /\
    top_state s' = Ok (x, y, z).
Proof.
  intros H0 Hcap. unfold push_state.
  destruct (push_contents s z) as (s1 & E1 & O1 & C1); [lia|lia|].
  destruct (push_contents s1 y) as (s2 & E2 & O2 & C2); [lia|lia|].
  destruct (push_contents s2 x) as (s3 & E3 & O3 & C3); [lia|lia|].
  rewrite E1; simpl. rewrite E2; simpl. rewrite E3.
  exists s3. split; [reflexivity|]. split; [lia|].
  rewrite C2, C1 in C3.
  destruct (pop_contents s3 x _ ltac:(lia) C3) as (t1 & P1 & _ & Q1 & D1).
  destruct (pop_contents t1 y _ Q1 D1) as (t2 & P2 & _ & Q2 & D2).
  destruct (pop_contents t2 z _ Q2 D2) as (t3 & P3 & _).
  unfold top_state. rewrite P1; simpl. rewrite P2; simpl. now rewrite P3.
Qed.

(** X3. A state goes on the stack as [z], [y], [x] and comes off as [x],
    [y], [z]: after the three pushes of a state the next three pops read
    that state, whatever lies below. *)
Theorem pushed_state_is_popped s x y z :
  0 <= offset s ->
  offset s + 3 <= STACK_SLOTS ->
  exists s',
    push_state s x y z = Ok s' /\
    offset s' = offset s + 3 /\
    top_state s' = Ok (x, y, z).
Proof. apply push_state_top. Qed.

Lemma pushed_state_is_popped_witness :
  exists s',
    push_state (stack initial_entry) 1 5 7 = Ok s' /\
    offset s' = offset (stack initial_entry) + 3 /\
    top_state s' = Ok (1, 5, 7).
Proof.
  apply pushed_state_is_popped.
  - simpl. lia.
  - vm_compute. discriminate.
Defined.

(** ** Valid inputs of any size: what wrap-around can and cannot do *)

Lemma int_add_wraps a b :
  0 <= a <= INT_MAX -> 0 <= b <= INT_MAX -> INT_MAX < a + b -> int_add a b < 0.
Proof.
  unfold INT_MAX, int_add, wrap_int. intros Ha Hb Hab.
  pose proof (Z.mod_pos_bound (a + b + 2147483648) 4294967296 ltac:(lia)).
  pose proof (Z.div_mod (a + b + 2147483648) 4294967296 ltac:(lia)).
  lia.
Qed.

Lemma in_table_bounds x y z :
  in_table x y z = true ->
  0 <= x < MAX_DEPTH_X /\ 0 <= y < MAX_DEPTH_Y /\ 0 <= z < MAX_DEPTH_Z.
Proof.
  unfold in_table. rewrite !andb_true_iff, !Z.leb_le, !Z.ltb_lt. lia.
Qed.

Definition in_table_state (st : state) : bool :=
  let '(x, y, z) := st in in_table x y z.

(** The state is the outcome of a choice for the items before it. *)
Definition chosen (j k : Z) (prices calories : list Z) (st : state) : Prop :=
  exists choice,
    selects j k prices calories choice
      (Z.to_nat (fst (fst st))) (snd (fst st)) (snd st).

Lemma running_sum_nonneg m choice vals :
  Forall (fun v => 0 <= v <= INT_MAX) vals -> 0 <= running_sum m choice vals.
Proof.
  intros Hall. induction m as [|m IH]; simpl; [lia|].
  pose proof (item_nonneg vals m Hall). destruct (choice m); lia.
Qed.

(** The two successors in the order in which they lie on the stack. *)
Definition arrange (order : push_order) (skip : state) (buy : list state)
  : list state :=
  match order with
  | BuyThenSkip => skip :: buy
  | SkipThenBuy => buy ++ [skip]
  end.

Lemma in_arrange order skip buy w :
  In w (arrange order skip buy) <-> w = skip \/ In w buy.
Proof.
  unfold arrange. destruct order; simpl.
  - intuition.
  - rewrite in_app_iff. simpl. intuition.
Qed.

Lemma expand_pushes order n j k prices calories x y z p c :
  int_add x 1 <= n ->
  array_get prices x = Ok p ->
  array_get calories x = Ok c ->
  expand order n j k prices calories x y z =
  Ok (arrange order (int_add x 1, y, z)
        (if (int_add y p <=? j) && (int_add z c <=? k)
         then [(int_add x 1, int_add y p, int_add z c)] else [])).
Proof.
  intros Hx Ep Ec. unfold expand, arrange.
  destruct (Z.leb_spec (int_add x 1) n); [|lia].
  rewrite Ep, Ec. simpl. destruct order; reflexivity.
Qed.

Section AnyItems.

Variable order : push_order.
Variables n j k : Z.
Variables prices calories : list Z.

Hypothesis valid : valid_input n j k prices calories.

Lemma successors_in_box x y z w :
  In (x, y, z) (box n j k) -> x < n ->
  In w (successors order j k prices calories x y z) ->
  In w (box n j k).
Proof.
  intros Hin Hx Hw. apply in_box in Hin. apply in_successors in Hw.
  pose proof (item_nonneg prices (Z.to_nat x) (valid_prices _ _ _ _ _ valid)).
  pose proof (item_nonneg calories (Z.to_nat x) (valid_calories _ _ _ _ _ valid)).
  destruct Hw as [->|(-> & Hy & Hz)]; apply in_box; lia.
Qed.

Lemma chosen_successor x y z w :
  0 <= x ->
  chosen j k prices calories (x, y, z) ->
  In w (successors order j k prices calories x y z) ->
  chosen j k prices calories w.
Proof.
  intros Hx (choice & Hsel) Hw. simpl in Hsel. apply in_successors in Hw.
  unfold chosen.
  destruct Hw as [->|(-> & Hy & Hz)]; simpl;
    replace (Z.to_nat (x + 1)) with (S (Z.to_nat x)) by lia.
  - exists (decide choice (Z.to_nat x) false).
    pose proof (selects_decide j k prices calories choice _ y z false Hsel) as E.
    simpl in E. rewrite !Z.add_0_r in E. apply E. discriminate.
  - exists (decide choice (Z.to_nat x) true).
    apply (selects_decide j k prices calories choice _ y z true Hsel).
    intros _. split; assumption.
Qed.

(** What the loop pushes for a state inside the table: every successor that
    the budgets allow, and besides those only states outside the table. *)
Lemma expand_any x y z :
  0 <= x < n -> 0 <= y <= j -> 0 <= z <= k ->
  exists succs,
    expand order n j k prices calories x y z = Ok succs /\
    (forall w, In w (successors order j k prices calories x y z) -> In w succs) /\
    (forall w, In w succs ->
       In w (successors order j k prices calories x y z) \/
       in_table_state w = false).
Proof.
  intros Hx Hy Hz. destruct valid as [Vn Vj Vk Lp Lc Pp Pc].
  destruct (item_at n prices _ x Lp Pp Hx) as [Ep Hp].
  destruct (item_at n calories _ x Lc Pc Hx) as [Ec Hc].
  set (p := nth (Z.to_nat x) prices 0) in *.
  set (c := nth (Z.to_nat x) calories 0) in *.
  assert (Ex : int_add x 1 = x + 1)
    by (apply int_add_exact; unfold INT_MIN, INT_MAX, MAX_DEPTH_X in *; lia).
  eexists. split.
  { apply (expand_pushes order n j k prices calories x y z p c);
      [lia|now apply array_get_nth|now apply array_get_nth]. }
  rewrite Ex.
  assert (Hout : forall a b,
            b < 0 \/ a < 0 -> in_table_state (x + 1, b, a) = false).
  { intros a b Hneg. simpl. destruct (in_table (x + 1) b a) eqn:Ei; [|reflexivity].
    apply in_table_bounds in Ei. lia. }
  assert (Hj : j <= INT_MAX /\ k <= INT_MAX)
    by (unfold INT_MAX, MAX_DEPTH_Y, MAX_DEPTH_Z in *; lia).
  assert (Hcases :
    (int_add y p = y + p /\ int_add z c = z + c) \/
    ((j < y + p \/ k < z + c) /\ (int_add y p < 0 \/ int_add z c < 0))).
  { destruct (Z_le_gt_dec (y + p) INT_MAX) as [Ly|Gy];
      destruct (Z_le_gt_dec (z + c) INT_MAX) as [Lz|Gz].
    - left. split; apply int_add_exact; unfold INT_MIN, INT_MAX in *; lia.
    - right. split; [lia|]. right. apply int_add_wraps; lia.
    - right. split; [lia|]. left. apply int_add_wraps; lia.
    - right. split; [lia|]. left. apply int_add_wraps; lia. }
  split.
  - intros w Hw. apply in_successors in Hw. fold p c in Hw.
    apply in_arrange.
    destruct Hw as [->|(-> & Py & Pz)]; [now left|right].
    destruct Hcases as [[-> ->]|[Hover _]]; [|lia].
    destruct (Z.leb_spec (y + p) j); [|lia].
    destruct (Z.leb_spec (z + c) k); [|lia]. now left.
  - intros w Hw. apply in_arrange in Hw.
    destruct Hw as [->|Hw]; [left; apply in_successors; now left|].
    destruct ((int_add y p <=? j) && (int_add z c <=? k)) eqn:Et;
      [|destruct Hw].
    destruct Hw as [<-|[]].
    destruct Hcases as [[Ey Ez]|[_ Hneg]].
    + left. rewrite Ey, Ez in *. apply in_successors. fold p c. right.
      apply andb_true_iff in Et. rewrite !Z.leb_le in Et. tauto.
    + right. apply Hout. tauto.
Qed.

(** The loop invariant without the bound on the items: a pending state is
    the outcome of a choice or lies outside the table. *)
Record any_inv (sts : list state) (t : table_t) : Prop := {
  ai_states :
    Forall (fun st => (In st (box n j k) /\ chosen j k prices calories st) \/
                      in_table_state st = false) sts;
  ai_shape : stack_shape n sts;
  ai_origin : In (0, 0, 0) sts \/ t 0 0 0 = BadPath;
  ai_closed :
    forall x y z w,
      In (x, y, z) (box n j k) -> x < n -> t x y z = BadPath ->
      In w (successors order j k prices calories x y z) ->
      In w sts \/ lookup t w = BadPath;
  ai_target : t n j k = Unknown
}.

Lemma any_inv_dead x y z rest t :
  any_inv ((x, y, z) :: rest) t ->
  t x y z = BadPath ->
  any_inv rest t.
Proof.
  intros [Hst Hs Ho Hc Ht] Hb. constructor.
  - now inversion Hst.
  - exact (proj1 (stack_shape_below _ _ _ _ _ Hs)).
  - destruct Ho as [[E|Hin]|Hbad]; [|now left|now right].
    injection E as -> -> ->. now right.
  - intros x' y' z' w Hin Hx Hb' Hw.
    destruct (Hc x' y' z' w Hin Hx Hb' Hw) as [[E|Hin']|Hbad];
      [|now left|now right].
    subst w. now right.
  - exact Ht.
Qed.

Lemma any_inv_expand x y z rest t succs :
  any_inv ((x, y, z) :: rest) t ->
  In (x, y, z) (box n j k) ->
  chosen j k prices calories (x, y, z) ->
  is_target n j k x y z = false ->
  expand order n j k prices calories x y z = Ok succs ->
  any_inv (succs ++ rest) (mark t x y z BadPath).
Proof.
  intros [Hst Hs Ho Hc Ht] Hin Hch Hnt Hex.
  pose proof Hin as Hb. apply in_box in Hb. destruct Hb as (Hx & Hy & Hz).
  assert (Hsucc :
    (x < n -> forall w, In w (successors order j k prices calories x y z) ->
              In w succs) /\
    (forall w, In w succs ->
       (In w (box n j k) /\ chosen j k prices calories w) \/
       in_table_state w = false)).
  { destruct (Z.eq_dec x n) as [->|Hne].
    - rewrite (expand_last order n j k prices calories valid) in Hex.
      injection Hex as <-. split; [lia|intros w []].
    - destruct (expand_any x y z) as (succs' & Hex' & Hin1 & Hin2); try lia.
      rewrite Hex in Hex'. injection Hex' as <-.
      split; [intros _; exact Hin1|].
      intros w Hw. destruct (Hin2 w Hw) as [Hs'|Hout]; [left|now right].
      split; [apply (successors_in_box x y z); auto; lia|].
      apply (chosen_successor x y z); auto; lia. }
  destruct Hsucc as [Hall Hnew].
  constructor.
  - apply Forall_app. split; [|now inversion Hst].
    apply Forall_forall. exact Hnew.
  - destruct (expand_levels order n j k prices calories
                (valid_n _ _ _ _ _ valid) x y z succs)
      as (Ha & Hl & Hn); [exact (proj1 Hs)|exact Hex|].
    eapply stack_shape_push; eassumption.
  - destruct Ho as [[E|Hin']|Hbad].
    + injection E as -> -> ->. right. apply mark_same.
    + left. apply in_or_app. now right.
    + right. now apply mark_keeps_bad.
  - intros x' y' z' w Hin' Hx' Hb' Hw.
    assert (Hold : In w (succs ++ rest) \/ w = (x, y, z) \/ lookup t w = BadPath).
    { destruct (Z.eqb_spec x' x) as [->|Nx];
        [destruct (Z.eqb_spec y' y) as [->|Ny];
         [destruct (Z.eqb_spec z' z) as [->|Nz]|]|].
      - left. apply in_or_app. left. now apply Hall.
      - rewrite mark_other in Hb' by congruence.
        destruct (Hc _ _ _ _ Hin' Hx' Hb' Hw) as [[E|Hr]|Hbad]; auto.
        left. apply in_or_app. now right.
      - rewrite mark_other in Hb' by congruence.
        destruct (Hc _ _ _ _ Hin' Hx' Hb' Hw) as [[E|Hr]|Hbad]; auto.
        left. apply in_or_app. now right.
      - rewrite mark_other in Hb' by congruence.
        destruct (Hc _ _ _ _ Hin' Hx' Hb' Hw) as [[E|Hr]|Hbad]; auto.
        left. apply in_or_app. now right. }
    destruct Hold as [Hl|[->|Hbad]]; [now left| |].
    + right. simpl. apply mark_same.
    + right. destruct w as [[a b] c]. simpl in *. now apply mark_keeps_bad.
  - rewrite mark_other; [exact Ht|]. exact (is_target_false n j k (valid_n _ _ _ _ _ valid) x y z Hnt).
Qed.

(** With nothing left on the stack no choice reaches the target. *)
Lemma any_inv_exhausted t :
  any_inv [] t -> ~ feasible n j k prices calories.
Proof.
  intros [_ _ Ho Hc Ht] (choice & Hpre & Hy & Hz).
  assert (Hall : forall m, (m <= Z.to_nat n)%nat ->
            t (Z.of_nat m) (running_sum m choice prices)
              (running_sum m choice calories) = BadPath).
  { induction m as [|m IH]; intros Hm.
    - destruct Ho as [[]|Hb]. exact Hb.
    - specialize (IH ltac:(lia)).
      destruct (Hpre m ltac:(lia)) as [Py Pz].
      pose proof (running_sum_nonneg m choice prices
                    (valid_prices _ _ _ _ _ valid)).
      pose proof (running_sum_nonneg m choice calories
                    (valid_calories _ _ _ _ _ valid)).
      destruct (Hc (Z.of_nat m) (running_sum m choice prices)
                  (running_sum m choice calories)
                  (Z.of_nat (S m), running_sum (S m) choice prices,
                   running_sum (S m) choice calories)) as [[]|Hb];
        [apply in_box; lia|lia|exact IH| |exact Hb].
      apply in_successors. rewrite Nat2Z.id.
      replace (Z.of_nat (S m)) with (Z.of_nat m + 1) by lia. simpl.
      destruct (choice m) eqn:Ec.
      + right. split; [reflexivity|].
        destruct (Hpre (S m) Hm) as [Qy Qz]. simpl in Qy, Qz.
        rewrite Ec in Qy, Qz. split; assumption.
      + left. now rewrite !Z.add_0_r. }
  specialize (Hall (Z.to_nat n) (Nat.le_refl _)).
  rewrite Hy, Hz, Z2Nat.id in Hall by (destruct valid; lia).
  congruence.
Qed.

Lemma solve_loop_any fuel :
  forall m sts,
    holds (stack m) sts ->
    any_inv sts (table m) ->
    (2 * unknown_cells (table m) (box n j k) + length sts < fuel)%nat ->
    (exists b, solve_loop order n j k prices calories fuel m = Returns b /\
               (b = true <-> feasible n j k prices calories)) \/
    solve_loop order n j k prices calories fuel m = Faults TableOutOfBounds.
Proof.
  induction fuel as [|fuel IH]; intros m sts Hh Hinv Hfuel; [lia|].
  simpl. destruct sts as [|[[x y] z] rest].
  - rewrite (holds_nil_offset _ Hh). simpl. left.
    exists false. split; [reflexivity|]. split; [discriminate|].
    intros Hf. now elim (any_inv_exhausted _ Hinv).
  - pose proof (holds_cons_offset _ _ _ Hh) as Hpos.
    destruct (Z.ltb_spec 0 (offset (stack m))) as [_|C]; [|lia].
    pose proof (valid_n _ _ _ _ _ valid) as Hn.
    pose proof (shape_capacity n Hn _ _ _ _ (ai_shape _ _ Hinv)) as Hcap.
    assert (Hhead : in_table x y z = true ->
              In (x, y, z) (box n j k) /\ chosen j k prices calories (x, y, z)).
    { intros Hi. pose proof (ai_states _ _ Hinv) as Hst.
      inversion_clear Hst as [|? ? [Hgood|Hout] _]; [exact Hgood|].
      simpl in Hout. congruence. }
    destruct (body_cases order n j k prices calories m x y z rest Hh Hcap)
      as [Et|Et Ei|m' Et Ei Em Ht Hh'|f Et Ei Em Ex|m' succs Et Ei Em Ex Ht Hh'].
    + left. exists true. split; [reflexivity|]. split; [intros _|reflexivity].
      apply is_target_true in Et. injection Et as -> -> ->.
      destruct Hhead as [_ Hch]; [|exact Hch].
      destruct valid. apply (in_box_in_table n j k); try lia. apply in_box. lia.
    + now right.
    + apply (IH m' rest Hh').
      * rewrite Ht. now apply (any_inv_dead x y z).
      * rewrite Ht. simpl length in Hfuel. lia.
    + exfalso. destruct (Hhead Ei) as [Hin _].
      pose proof Hin as Hb. apply in_box in Hb. destruct Hb as (Hx & Hy & Hz).
      destruct (Z.eq_dec x n) as [->|Hne].
      * rewrite (expand_last order n j k prices calories valid) in Ex.
        discriminate.
      * destruct (expand_any x y z) as (succs & Hex & _); try lia. congruence.
    + destruct (Hhead Ei) as [Hin Hch].
      apply (IH m' (succs ++ rest) Hh').
      * rewrite Ht. now apply any_inv_expand.
      * rewrite Ht.
        pose proof (unknown_cells_mark_lt (table m) x y z _ Hin Em) as Hlt.
        destruct (expand_levels order n j k prices calories Hn x y z succs)
          as (_ & Hl & _); [exact (proj1 (ai_shape _ _ Hinv))|exact Ex|].
        rewrite length_app. simpl length in Hfuel. lia.
Qed.

Lemma solve_with_any m0 fuel :
  fresh m0 ->
  (fuel_bound n j k <= fuel)%nat ->
  (exists b, solve_with order n j k prices calories fuel m0 = Returns b /\
             (b = true <-> feasible n j k prices calories)) \/
  solve_with order n j k prices calories fuel m0 = Faults TableOutOfBounds.
Proof.
  intros [Hempty Hfresh] Hfuel.
  destruct (entry_holds m0 Hempty) as (m & Em & Hh & Ht).
  unfold solve_with. rewrite Em.
  assert (Hv : 0 <= n /\ 0 <= j /\ 0 <= k) by (destruct valid; lia).
  apply (solve_loop_any fuel m [(0, 0, 0)] Hh).
  - rewrite Ht. constructor.
    + constructor; [|constructor]. left. split; [apply in_box; lia|].
      exists (fun _ => false). simpl. split; [|split; reflexivity].
      intros i Hi. replace i with O by lia. simpl. lia.
    + simpl. split; [lia|trivial].
    + left. now left.
    + intros x y z w Hin _ Hb. rewrite Hfresh in Hb; [discriminate|].
      now apply (box_in_table n j k prices calories valid).
    + apply Hfresh. apply (box_in_table n j k prices calories valid).
      apply in_box. lia.
  - pose proof (unknown_cells_bound (table m) (box n j k)).
    pose proof (box_fuel n j k ltac:(lia) ltac:(lia) ltac:(lia)).
    simpl length. lia.
Qed.

End AnyItems.

Lemma solve_with_answer order n j k prices calories m0 fuel b :
  valid_input n j k prices calories ->
  fresh m0 ->
  solve_with order n j k prices calories fuel m0 = Returns b ->
  (b = true <-> feasible n j k prices calories).
Proof.
  intros Hv Hf Hr.
  apply (solve_with_more_fuel _ _ _ _ _ _ _ _ _ (fuel_bound n j k)) in Hr;
    [|discriminate].
  destruct (solve_with_any order n j k prices calories Hv m0
              (fuel + fuel_bound n j k) Hf ltac:(lia)) as [(b' & Hr' & Hiff)|Hfault].
  - rewrite Hr in Hr'. injection Hr' as <-. exact Hiff.
  - rewrite Hr in Hfault. discriminate.
Qed.

(** X4. Wrap-around never produces a wrong answer: on every valid input,
    however large the items, with the table all [Unknown] and the stack empty
    at entry, a value that [solve] returns is true exactly when some choice
    of items meets both targets. *)
Theorem solve_answer_is_right n j k prices calories m0 fuel b :
  valid_input n j k prices calories ->
  fresh m0 ->
  solve fuel m0 n j k prices calories = Returns b ->
  (b = true <-> feasible n j k prices calories).
Proof. apply solve_with_answer. Qed.

Lemma solve_answer_is_right_witness :
  true = true <-> feasible 2 1 0 [1; INT_MAX] [0; 0].
Proof.
  apply (solve_answer_is_right 2 1 0 [1; INT_MAX] [0; 0] initial_machine 20 true).
  - concrete_input.
  - split; [reflexivity|intros x y z _; reflexivity].
  - vm_compute. reflexivity.
Defined.

(** X5. On every valid input, with the table all [Unknown] and the stack
    empty at entry, [solve] is over within [fuel_bound n j k] iterations, and
    the only way it can fail is a table access outside the table: it never
    reads an item outside the arrays and never overruns the stack. *)
Theorem solve_ends_or_leaves_table n j k prices calories m0 fuel :
  valid_input n j k prices calories ->
  fresh m0 ->
  (fuel_bound n j k <= fuel)%nat ->
  (exists b, solve fuel m0 n j k prices calories = Returns b) \/
  solve fuel m0 n j k prices calories = Faults TableOutOfBounds.
Proof.
  intros Hv Hf Hfuel.
  destruct (solve_with_any BuyThenSkip n j k prices calories Hv m0 fuel Hf Hfuel)
    as [(b & Hr & _)|Hfault]; [left; now exists b|now right].
Qed.

Lemma solve_ends_or_leaves_table_witness :
  (exists b, solve (fuel_bound 2 2 0) initial_machine 2 2 0 [1; INT_MAX] [0; 0]
             = Returns b) \/
  solve (fuel_bound 2 2 0) initial_machine 2 2 0 [1; INT_MAX] [0; 0]
  = Faults TableOutOfBounds.
Proof.
  apply solve_ends_or_leaves_table.
  - concrete_input.
  - split; [reflexivity|intros x y z _; reflexivity].
  - apply Nat.le_refl.
Defined.

(** X6. On every valid input, with the table all [Unknown] and the stack
    empty at entry, [solve] and the variant that pushes Skip before Buy
    never return different values: the order of the pushes can only decide
    which of them runs into a state outside the table. *)
Theorem push_orders_never_disagree n j k prices calories m0 f1 f2 b1 b2 :
  valid_input n j k prices calories ->
  fresh m0 ->
  solve f1 m0 n j k prices calories = Returns b1 ->
  solve_skip_first f2 m0 n j k prices calories = Returns b2 ->
  b1 = b2.
Proof.
  intros Hv Hf H1 H2.
  pose proof (solve_with_answer _ _ _ _ _ _ _ _ _ Hv Hf H1) as I1.
  pose proof (solve_with_answer _ _ _ _ _ _ _ _ _ Hv Hf H2) as I2.
  destruct b1, b2; try reflexivity.
  - symmetry. apply I2. now apply I1.
  - apply I1. now apply I2.
Qed.

Lemma push_orders_never_disagree_witness : true = true.
Proof.
  apply (push_orders_never_disagree 3 10 10 [5; 5; 1] [5; 5; 1]
           initial_machine 20 20 true true).
  - concrete_input.
  - split; [reflexivity|intros x y z _; reflexivity].
  - vm_compute. reflexivity.
  - vm_compute. reflexivity.
Defined.

(** ** A second call on the same globals *)

Lemma push_state_succeeds s x y z s' :
  push_state s x y z = Ok s' -> offset s + 3 <= STACK_SLOTS.
Proof.
  unfold push_state, dfs_stack_push.
  destruct (Z.ltb_spec (offset s) STACK_SLOTS); simpl; [|discriminate].
  destruct (Z.ltb_spec (offset s + 1) STACK_SLOTS); simpl; [|discriminate].
  destruct (Z.ltb_spec (offset s + 1 + 1) STACK_SLOTS); simpl; [|discriminate].
  intros _. lia.
Qed.

Lemma entry_top m0 m1 :
  0 <= offset (stack m0) ->
  entry m0 = Ok m1 ->
  top_state (stack m1) = Ok (0, 0, 0) /\
  offset (stack m1) = offset (stack m0) + 3.
Proof.
  intros H0. unfold entry.
  destruct (push_state (stack m0) 0 0 0) as [s|f] eqn:E; simpl; [|discriminate].
  intros E1. injection E1 as <-. simpl.
  pose proof (push_state_succeeds _ _ _ _ _ E) as Hcap.
  destruct (push_state_top (stack m0) 0 0 0 H0 Hcap) as (s' & E' & Ho & Ht).
  rewrite E in E'. injection E' as <-. split; assumption.
Qed.

Section Reuse.

Variable order : push_order.
Variables n j k : Z.
Variables prices calories : list Z.

(** An iteration that goes on leaves the state it popped marked. *)
Lemma iterates_marks_top m m' x y z :
  iterates order n j k prices calories m m' ->
  top_state (stack m) = Ok (x, y, z) ->
  table m' x y z = BadPath.
Proof.
  intros [_ Hb] Ht. apply loop_body_continues in Hb.
  destruct Hb as (x' & y' & z' & s1 & s2 & s3 & E1 & E2 & E3 & _ & _ & Hcase).
  unfold top_state in Ht. rewrite E1 in Ht; simpl in Ht.
  rewrite E2 in Ht; simpl in Ht. rewrite E3 in Ht; simpl in Ht.
  injection Ht as -> -> ->.
  destruct Hcase as [[Hbad ->]|[_ ->]]; [exact Hbad|apply mark_same].
Qed.

(** From the first iteration on, the origin is marked. *)
Lemma reaches_origin_marked m1 m :
  top_state (stack m1) = Ok (0, 0, 0) ->
  reaches order n j k prices calories m1 m ->
  m = m1 \/ table m 0 0 0 = BadPath.
Proof.
  intros Ht Hr. induction Hr as [|ma mb _ IH Hit]; [now left|].
  right. destruct IH as [->|Hbad].
  - now apply (iterates_marks_top m1 mb).
  - now apply (iterates_keeps_bad order n j k prices calories ma mb).
Qed.

(** With the origin marked at entry the loop drops it and stops. *)
Lemma solve_with_origin_marked m fuel :
  offset (stack m) = 0 ->
  table m 0 0 0 = BadPath ->
  (n, j, k) <> (0, 0, 0) ->
  (2 <= fuel)%nat ->
  solve_with order n j k prices calories fuel m = Returns false.
Proof.
  intros Hempty Hbad Hne Hfuel.
  destruct (entry_holds m Hempty) as (m2 & Em & Hh & Ht).
  unfold solve_with. rewrite Em.
  destruct fuel as [|[|fuel]]; try lia.
  pose proof (holds_cons_offset _ _ _ Hh) as Hpos.
  simpl. destruct (Z.ltb_spec 0 (offset (stack m2))) as [_|C]; [|lia].
  assert (Hcap : 3 * Z.of_nat (@length state []) + 6 <= STACK_SLOTS)
    by (vm_compute; discriminate).
  destruct (body_cases order n j k prices calories m2 0 0 0 [] Hh Hcap)
    as [Et|Et Ei|m' Et Ei Em' Ht' Hh'|f Et Ei Em' Ex|m' succs Et Ei Em' Ex Ht' Hh'].
  - apply is_target_true in Et. congruence.
  - discriminate Ei.
  - rewrite (holds_nil_offset _ Hh'). destruct fuel; reflexivity.
  - rewrite Ht in Em'. congruence.
  - rewrite Ht in Em'. congruence.
Qed.

End Reuse.

(** X7. The globals are not reset: once a call of [solve] has left its loop
    with false, a further call on the same stack and table returns false for
    every target other than [(0, 0, 0)], whatever its items, because the
    first call left the cell of the origin marked. *)
Theorem second_call_returns_false
  n j k prices calories m0 m1 m n' j' k' prices' calories' fuel :
  0 <= offset (stack m0) ->
  entry m0 = Ok m1 ->
  reaches BuyThenSkip n j k prices calories m1 m ->
  offset (stack m) = 0 ->
  (n', j', k') <> (0, 0, 0) ->
  (2 <= fuel)%nat ->
  solve fuel m n' j' k' prices' calories' = Returns false.
Proof.
  intros H0 He Hr Hend Hne Hfuel.
  destruct (entry_top m0 m1 H0 He) as [Ht Ho].
  destruct (reaches_origin_marked BuyThenSkip n j k prices calories m1 m Ht Hr)
    as [->|Hbad]; [lia|].
  now apply solve_with_origin_marked.
Qed.

Lemma second_call_returns_false_witness :
  solve 2 (machine_after BuyThenSkip 2 3 3 [2; 2] [2; 2] 6 initial_entry)
    3 10 10 [5; 5; 1] [5; 5; 1] = Returns false.
Proof.
  apply (second_call_returns_false 2 3 3 [2; 2] [2; 2]
           initial_machine initial_entry).
  - simpl. lia.
  - reflexivity.
  - apply (advance_reaches BuyThenSkip 2 3 3 [2; 2] [2; 2] 6). reflexivity.
  - reflexivity.
  - discriminate.
  - apply Nat.le_refl.
Defined.

(** ** Reads of the item arrays *)

Section ItemReads.

Variable order : push_order.
Variables n j k : Z.
Variables prices calories : list Z.

Hypothesis n_range : 0 <= n <= MAX_DEPTH_X - 1.
Hypothesis prices_long : n <= Z.of_nat (length prices).
Hypothesis calories_long : n <= Z.of_nat (length calories).

Lemma array_get_inside (a : list Z) x :
  0 <= x < Z.of_nat (length a) -> exists v, array_get a x = Ok v.
Proof.
  intros Hx. exists (nth (Z.to_nat x) a 0).
  apply array_get_nth; [lia|]. apply nth_error_nth'. lia.
Qed.

Lemma expand_reads_inside x y z :
  0 <= x <= n ->
  exists succs, expand order n j k prices calories x y z = Ok succs.
Proof.
  intros Hx. unfold expand.
  rewrite int_add_exact by (unfold INT_MIN, INT_MAX, MAX_DEPTH_X in *; lia).
  destruct (Z.leb_spec (x + 1) n) as [Hle|_]; [|now exists []].
  destruct (array_get_inside prices x) as (p & ->); [lia|].
  destruct (array_get_inside calories x) as (c & ->); [lia|].
  simpl. destruct order; eexists; reflexivity.
Qed.

Lemma solve_loop_reads_inside fuel :
  forall m sts,
    holds (stack m) sts -> stack_shape n sts ->
    solve_loop order n j k prices calories fuel m <> Faults ItemOutOfBounds.
Proof.
  induction fuel as [|fuel IH]; intros m sts Hh Hs; simpl; [discriminate|].
  destruct (Z.ltb_spec 0 (offset (stack m))) as [Hpos|_]; [|discriminate].
  destruct sts as [|[[x y] z] rest].
  - apply holds_nil_offset in Hh. lia.
  - pose proof (shape_capacity n n_range _ _ _ _ Hs) as Hcap.
    destruct (body_cases order n j k prices calories m x y z rest Hh Hcap)
      as [Et|Et Ei|m' Et Ei Em Ht Hh'|f Et Ei Em Ex|m' succs Et Ei Em Ex Ht Hh'].
    + discriminate.
    + discriminate.
    + apply (IH m' rest Hh'). exact (proj1 (stack_shape_below _ _ _ _ _ Hs)).
    + destruct (expand_reads_inside x y z (proj1 Hs)) as (succs & Hex).
      congruence.
    + apply (IH m' (succs ++ rest) Hh').
      destruct (expand_levels order n j k prices calories n_range x y z succs
                  (proj1 Hs) Ex) as (Ha & Hl & Hn).
      eapply stack_shape_push; eassumption.
Qed.

Lemma solve_with_fault_is_table m0 fuel f :
  offset (stack m0) = 0 ->
  solve_with order n j k prices calories fuel m0 = Faults f ->
  f = TableOutOfBounds.
Proof.
  intros Hempty. unfold solve_with.
  destruct (entry_holds m0 Hempty) as (m & Em & Hh & _). rewrite Em.
  assert (Hs : stack_shape n [(0, 0, 0)]) by (simpl; split; [lia|trivial]).
  pose proof (solve_loop_stack_safe order n j k prices calories n_range fuel m
                _ Hh Hs) as [Hov Hun].
  pose proof (solve_loop_reads_inside fuel m _ Hh Hs) as Hit.
  intros Hf. destruct f; congruence.
Qed.

End ItemReads.

(** X8. Nothing goes out of range before the table does: with
    [0 <= n <= MAX_DEPTH_X - 1], arrays of at least [n] items and the stack
    empty at entry, whatever the targets, the values of the items and the
    contents of the table, the first access of a call that is out of range,
    if there is one, is an access [table[x][y][z]] with a subscript outside
    its dimension.  Up to that access every read of [prices[x]] and
    [calories[x]] has [0 <= x < n] and every push and pop finds the stack in
    range.  The run of the model ends at that access; what the program does
    after it is not covered. *)
Theorem only_table_access_can_fail n j k prices calories m0 fuel f :
  0 <= n <= MAX_DEPTH_X - 1 ->
  n <= Z.of_nat (length prices) ->
  n <= Z.of_nat (length calories) ->
  offset (stack m0) = 0 ->
  solve fuel m0 n j k prices calories = Faults f ->
  f = TableOutOfBounds.
Proof.
  intros Hn Hp Hc. apply solve_with_fault_is_table; assumption.
Qed.

Lemma only_table_access_can_fail_witness : TableOutOfBounds = TableOutOfBounds.
Proof.
  apply (only_table_access_can_fail 2 2 0 [1; INT_MAX] [0; 0] initial_machine 20).
  - unfold MAX_DEPTH_X. lia.
  - simpl. lia.
  - simpl. lia.
  - reflexivity.
  - vm_compute. reflexivity.
Defined.

(** ** Targets below zero *)

(** X9. A negative target is answered with false and touches nothing outside
    the table: with [0 <= n <= MAX_DEPTH_X - 1], arrays of [n] non-negative
    items, the table all [Unknown] and the stack empty at entry, if [j < 0]
    or [k < 0] then no item is ever bought, only the states [(x, 0, 0)] are
    visited, and [solve] returns false within [2 * (n + 1) + 2]
    iterations. *)
Theorem solve_negative_target n j k prices calories m0 fuel :
  0 <= n <= MAX_DEPTH_X - 1 ->
  Z.of_nat (length prices) = n ->
  Z.of_nat (length calories) = n ->
  Forall (fun p => 0 <= p <= INT_MAX) prices ->
  Forall (fun c => 0 <= c <= INT_MAX) calories ->
  j < 0 \/ k < 0 ->
  fresh m0 ->
  (fuel_bound n 0 0 <= fuel)%nat ->
  solve fuel m0 n j k prices calories = Returns false.
Proof.
  intros Hn Lp Lc Pp Pc Hneg [Hempty Hfresh] Hfuel.
  assert (Hclosed : forall x y z, In (x, y, z) (line n) ->
            exists succs,
              expand BuyThenSkip n j k prices calories x y z = Ok succs /\
              forall w, In w succs -> In w (line n)).
  { intros x y z Hin. apply in_line in Hin. destruct Hin as (Hx & -> & ->).
    assert (Ex : int_add x 1 = x + 1)
      by (apply int_add_exact; unfold INT_MIN, INT_MAX, MAX_DEPTH_X in *; lia).
    destruct (Z.eq_dec x n) as [->|Hne].
    - exists []. split; [|intros w []]. unfold expand. rewrite Ex.
      destruct (Z.leb_spec (n + 1) n); [lia|reflexivity].
    - destruct (item_at n prices _ x Lp Pp ltac:(lia)) as [Ep Hp].
      destruct (item_at n calories _ x Lc Pc ltac:(lia)) as [Ec Hc].
      eexists. split.
      { apply (expand_pushes BuyThenSkip n j k prices calories x 0 0
                 (nth (Z.to_nat x) prices 0) (nth (Z.to_nat x) calories 0));
          [lia|apply array_get_nth; [lia|exact Ep]
              |apply array_get_nth; [lia|exact Ec]]. }
      rewrite Ex.
      rewrite !int_add_exact by (unfold INT_MIN, INT_MAX in *; lia).
      intros w Hw. apply in_arrange in Hw. simpl in Hw.
      destruct Hw as [->|Hw]; [apply in_line; lia|].
      destruct (Z.leb_spec (nth (Z.to_nat x) prices 0) j);
        destruct (Z.leb_spec (nth (Z.to_nat x) calories 0) k);
        simpl in Hw; try (now destruct Hw); lia. }
  destruct (solve_with_decides BuyThenSkip n j k prices calories Hn (line n)
              (line_origin n Hn) (line_in_table n Hn) Hclosed m0 fuel
              Hempty Hfresh) as (b & Hr & Hiff).
  { unfold line. rewrite length_map, range_length.
    unfold fuel_bound in Hfuel. lia. }
  unfold solve. rewrite Hr. destruct b; [|reflexivity].
  assert (Hv : visits BuyThenSkip n j k prices calories (n, j, k))
    by now apply Hiff.
  apply (visits_in_cells BuyThenSkip n j k prices calories (line n)
           (line_origin n Hn) Hclosed) in Hv.
  apply in_line in Hv. lia.
Qed.

Lemma solve_negative_target_witness :
  solve (fuel_bound 3 0 0) initial_machine 3 (-1) 10 [5; 5; 1] [5; 5; 1]
  = Returns false.
Proof.
  apply solve_negative_target.
  - unfold MAX_DEPTH_X. lia.
  - reflexivity.
  - reflexivity.
  - repeat constructor; unfold INT_MAX; lia.
  - repeat constructor; unfold INT_MAX; lia.
  - left. lia.
  - split; [reflexivity|intros x y z _; reflexivity].
  - apply Nat.le_refl.
Defined.

(** ** Exact sums *)

Lemma running_sum_grows choice vals m m' :
  Forall (fun v => 0 <= v <= INT_MAX) vals ->
  (m <= m')%nat ->
  running_sum m choice vals <= running_sum m' choice vals.
Proof.
  intros Hall Hle. induction Hle as [|m' _ IH]; [lia|].
  simpl. pose proof (item_nonneg vals m' Hall). destruct (choice m'); lia.
Qed.

(** For items that are not negative the budgets at the prefixes follow from
    the final sums. *)
Lemma feasible_exact_sums n j k prices calories :
  valid_input n j k prices calories ->
  feasible n j k prices calories <->
  exists choice : nat -> bool,
    running_sum (Z.to_nat n) choice prices = j /\
    running_sum (Z.to_nat n) choice calories = k.
Proof.
  intros Hv. split.
  - intros (choice & _ & Hy & Hz). now exists choice.
  - intros (choice & Hy & Hz). exists choice. split; [|split; assumption].
    intros m Hm. rewrite <- Hy at 1. rewrite <- Hz at 1. split.
    + apply running_sum_grows; [apply (valid_prices _ _ _ _ _ Hv)|exact Hm].
    + apply running_sum_grows; [apply (valid_calories _ _ _ _ _ Hv)|exact Hm].
Qed.

(** X12. [solve] decides the subset-sum question in two dimensions: on every
    valid input on which no sum within budget plus an item exceeds
    [INT_MAX], with the table all [Unknown] and the stack empty at entry, it
    returns true exactly when some subset of the [n] items has prices that
    add up to [j] and calories that add up to [k].  The test [new_y <= j &&
    new_z <= k] on the way excludes no such subset. *)
Theorem solve_decides_subset_sum n j k prices calories m0 :
  valid_input n j k prices calories ->
  no_overflow j k prices calories ->
  fresh m0 ->
  solve_returns m0 n j k prices calories true <->
  exists choice : nat -> bool,
    running_sum (Z.to_nat n) choice prices = j /\
    running_sum (Z.to_nat n) choice calories = k.
Proof.
  intros Hv Hb Hf.
  rewrite <- (feasible_exact_sums n j k prices calories Hv).
  exact (proj1 (solve_with_settles BuyThenSkip n j k prices calories m0 Hv Hb Hf)).
Qed.

Lemma solve_decides_subset_sum_witness :
  solve_returns initial_machine 3 6 6 [5; 5; 1] [5; 5; 1] true <->
  exists choice : nat -> bool,
    running_sum (Z.to_nat 3) choice [5; 5; 1] = 6 /\
    running_sum (Z.to_nat 3) choice [5; 5; 1] = 6.
Proof.
  apply solve_decides_subset_sum.
  - concrete_input.
  - split; repeat constructor; unfold INT_MAX; lia.
  - split; [reflexivity|intros x y z _; reflexivity].
Defined.

(** ** The path that buys nothing *)

Section SkipPath.

Variable n : Z.
Variables prices calories : list Z.

Hypothesis n_range : 0 <= n <= MAX_DEPTH_X - 1.
Hypothesis prices_long : n <= Z.of_nat (length prices).
Hypothesis calories_long : n <= Z.of_nat (length calories).

Lemma solve_loop_skip_path d :
  forall fuel m x rest,
    Z.of_nat d = n - x ->
    0 <= x ->
    holds (stack m) ((x, 0, 0) :: rest) ->
    stack_shape n ((x, 0, 0) :: rest) ->
    (forall x', x <= x' <= n -> table m x' 0 0 = Unknown) ->
    solve_loop BuyThenSkip n 0 0 prices calories fuel m =
    if (d <? fuel)%nat then Returns true else OutOfFuel.
Proof.
  induction d as [|d IH]; intros [|fuel] m x rest Hd Hx Hh Hs Hu;
    try reflexivity;
    pose proof (holds_cons_offset _ _ _ Hh) as Hpos;
    pose proof (shape_capacity n n_range _ _ _ _ Hs) as Hcap;
    cbn [solve_loop];
    (destruct (Z.ltb_spec 0 (offset (stack m))) as [_|C]; [|lia]);
    destruct (body_cases BuyThenSkip n 0 0 prices calories m x 0 0 rest Hh Hcap)
      as [Et|Et Ei|m' Et Ei Em Ht Hh'|f Et Ei Em Ex|m' succs Et Ei Em Ex Ht Hh'];
    try (rewrite Hu in Em by lia; discriminate);
    try (exfalso; unfold in_table, MAX_DEPTH_X in *;
         destruct (Z.leb_spec 0 x); [|lia]; destruct (Z.ltb_spec x 501); [|lia];
         discriminate);
    try (exfalso;
         destruct (expand_reads_inside BuyThenSkip n 0 0 prices calories n_range
                     prices_long calories_long x 0 0) as (succs & Hex); [lia|];
         congruence).
  - reflexivity.
  - exfalso. unfold is_target in Et.
    replace x with n in Et by lia. rewrite !Z.eqb_refl in Et. discriminate.
  - exfalso. apply is_target_true in Et. injection Et as ->. lia.
  - assert (Ex1 : int_add x 1 = x + 1)
      by (apply int_add_exact; unfold INT_MIN, INT_MAX, MAX_DEPTH_X in *; lia).
    assert (Hp : exists p, array_get prices x = Ok p).
    { exists (nth (Z.to_nat x) prices 0).
      apply array_get_nth; [lia|]. apply nth_error_nth'. lia. }
    assert (Hc : exists c, array_get calories x = Ok c).
    { exists (nth (Z.to_nat x) calories 0).
      apply array_get_nth; [lia|]. apply nth_error_nth'. lia. }
    destruct Hp as (p & Ep). destruct Hc as (c & Ec).
    rewrite (expand_pushes BuyThenSkip n 0 0 prices calories x 0 0 p c) in Ex;
      [|lia|exact Ep|exact Ec].
    rewrite Ex1 in Ex. unfold arrange in Ex. injection Ex as <-.
    set (buy := if (int_add 0 p <=? 0) && (int_add 0 c <=? 0)
                then [(x + 1, int_add 0 p, int_add 0 c)] else []) in *.
    change (holds (stack m') ((x + 1, 0, 0) :: (buy ++ rest))) in Hh'.
    rewrite (IH fuel m' (x + 1) (buy ++ rest) ltac:(lia) ltac:(lia) Hh');
      [reflexivity| |].
    + destruct (expand_levels BuyThenSkip n 0 0 prices calories n_range x 0 0
                  ((x + 1, 0, 0) :: buy))
        as (Ha & Hl & Hn); [exact (proj1 Hs)| |].
      * rewrite (expand_pushes BuyThenSkip n 0 0 prices calories x 0 0 p c);
          [|lia|exact Ep|exact Ec].
        rewrite Ex1. reflexivity.
      * apply (stack_shape_push n x 0 0 rest ((x + 1, 0, 0) :: buy));
          assumption.
    + intros x' Hx'. rewrite Ht, mark_other; [apply Hu; lia|].
      intros E. injection E as E. lia.
Qed.

End SkipPath.

(** X13. The heuristic of the source: Skip is pushed last and so explored
    first.  With the targets [j = 0] and [k = 0], [0 <= n <= MAX_DEPTH_X - 1],
    arrays of at least [n] items of any value, the table all [Unknown] and
    the stack empty at entry, [solve] walks [(0,0,0), (1,0,0), ..., (n,0,0)]
    and returns true at its iteration number [n + 1] and not before: [n]
    iterations or fewer do not end the loop, [n + 1] or more return true. *)
Theorem skip_path_is_explored_first n prices calories m0 fuel :
  0 <= n <= MAX_DEPTH_X - 1 ->
  n <= Z.of_nat (length prices) ->
  n <= Z.of_nat (length calories) ->
  fresh m0 ->
  ((fuel <= Z.to_nat n)%nat ->
   solve fuel m0 n 0 0 prices calories = OutOfFuel) /\
  ((Z.to_nat n < fuel)%nat ->
   solve fuel m0 n 0 0 prices calories = Returns true).
Proof.
  intros Hn Lp Lc [Hempty Hfresh].
  destruct (entry_holds m0 Hempty) as (m & Em & Hh & Ht).
  assert (E : solve fuel m0 n 0 0 prices calories =
              if (Z.to_nat n <? fuel)%nat then Returns true else OutOfFuel).
  { unfold solve, solve_with. rewrite Em.
    apply (solve_loop_skip_path n prices calories Hn Lp Lc (Z.to_nat n) fuel m 0 []);
      try lia; try assumption.
    - simpl. split; [lia|trivial].
    - intros x' Hx'. rewrite Ht. apply Hfresh.
      unfold in_table, MAX_DEPTH_X in *.
      destruct (Z.leb_spec 0 x'); [|lia]. destruct (Z.ltb_spec x' 501); [|lia].
      reflexivity. }
  rewrite E. split; intros Hf.
  - destruct (Nat.ltb_spec (Z.to_nat n) fuel); [lia|reflexivity].
  - destruct (Nat.ltb_spec (Z.to_nat n) fuel); [reflexivity|lia].
Qed.

Lemma skip_path_is_explored_first_witness :
  solve 3 initial_machine 3 0 0 [0; 7; 0] [0; 7; 0] = OutOfFuel /\
  solve 4 initial_machine 3 0 0 [0; 7; 0] [0; 7; 0] = Returns true.
Proof.
  split.
  - apply (skip_path_is_explored_first 3 [0; 7; 0] [0; 7; 0] initial_machine 3).
    + unfold MAX_DEPTH_X. lia.
    + simpl. lia.
    + simpl. lia.
    + split; [reflexivity|intros x y z _; reflexivity].
    + apply Nat.le_refl.
  - apply (skip_path_is_explored_first 3 [0; 7; 0] [0; 7; 0] initial_machine 4).
    + unfold MAX_DEPTH_X. lia.
    + simpl. lia.
    + simpl. lia.
    + split; [reflexivity|intros x y z _; reflexivity].
    + simpl. lia.
Defined.

(** ** The program around [solve] *)

(** [main] of the source, lines 129 to 149.  Standard input is taken as the
    sequence of integers that the [%d] conversions of [scanf] yield, and
    standard output as the text written.  The C standard leaves the program
    undefined when a conversion finds no integer (the variable is then read
    uninitialised) and when the arrays [prices[n]] and [calories[n]] are
    declared with [n <= 0]; the model says nothing about those runs. *)
Module Program.

Import String.

Inductive ending : Type :=
| Exits (output : string) (status : Z)
| Crashes (f : fault)
| Undefined
| Unfinished.

Definition newline : string := String (Ascii.ascii_of_nat 10) EmptyString.

(** The loop of lines 136 to 138: [count] pairs of a price and a calorie. *)
Fixpoint scan_items (count : nat) (input : list Z) : option (list Z * list Z) :=
  match count with
  | O => Some ([], [])
  | S count' =>
    match input with
    | price :: calorie :: rest =>
      match scan_items count' rest with
      | Some (prices, calories) => Some (price :: prices, calorie :: calories)
      | None => None
      end
    | _ => None
    end
  end.

Definition main (fuel : nat) (input : list Z) : ending :=
  match input with
  | n :: c :: e :: rest =>
    if n <=? 0 then Undefined else
    match scan_items (Z.to_nat n) rest with
    | Some (prices, calories) =>
      match solve fuel initial_machine n c e prices calories with
      | Returns success =>
        if success
        then Exits ("Yes" ++ newline)%string 0
        else Exits ("No" ++ newline)%string 0
      | Faults f => Crashes f
      | OutOfFuel => Unfinished
      end
    | None => Undefined
    end
  | _ => Undefined
  end.

(** The text of the items on standard input: price and calorie of each item
    in turn. *)
Fixpoint interleave (prices calories : list Z) : list Z :=
  match prices, calories with
  | p :: prices', c :: calories' => p :: c :: interleave prices' calories'
  | _, _ => []
  end.

Lemma scan_items_interleave prices :
  forall calories trailing,
    List.length prices = List.length calories ->
    scan_items (List.length prices) (interleave prices calories ++ trailing)
    = Some (prices, calories).
Proof.
  induction prices as [|p prices IH]; intros [|c calories] trailing Hl;
    simpl in Hl; try discriminate; [reflexivity|].
  simpl. rewrite IH by congruence. reflexivity.
Qed.

Lemma main_runs_solve fuel n c e prices calories trailing :
  1 <= n ->
  Z.of_nat (List.length prices) = n ->
  Z.of_nat (List.length calories) = n ->
  main fuel (n :: c :: e :: interleave prices calories ++ trailing) =
  match solve fuel initial_machine n c e prices calories with
  | Returns success =>
    if success
    then Exits ("Yes" ++ newline)%string 0
    else Exits ("No" ++ newline)%string 0
  | Faults f => Crashes f
  | OutOfFuel => Unfinished
  end.
Proof.
  intros Hn Lp Lc. unfold main.
  destruct (Z.leb_spec n 0); [lia|].
  replace (Z.to_nat n) with (List.length prices) by lia.
  rewrite scan_items_interleave by lia. reflexivity.
Qed.

(** X10. On well-formed input, a line [n c e] with [n >= 1] followed by the
    [n] pairs of a valid item list on which no sum within budget plus an item
    exceeds [INT_MAX], and whatever follows the last pair, [main] writes
    exactly the line Yes when some choice of items meets both targets and
    exactly the line No when none does, and exits with status 0. *)
Theorem main_prints_answer fuel n c e prices calories trailing :
  1 <= n ->
  valid_input n c e prices calories ->
  no_overflow c e prices calories ->
  (fuel_bound n c e <= fuel)%nat ->
  (feasible n c e prices calories ->
   main fuel (n :: c :: e :: interleave prices calories ++ trailing)
   = Exits ("Yes" ++ newline)%string 0) /\
  (~ feasible n c e prices calories ->
   main fuel (n :: c :: e :: interleave prices calories ++ trailing)
   = Exits ("No" ++ newline)%string 0).
Proof.
  intros Hn Hv Hb Hfuel.
  rewrite main_runs_solve;
    [|exact Hn|apply (valid_prices_length _ _ _ _ _ Hv)
             |apply (valid_calories_length _ _ _ _ _ Hv)].
  destruct (solve_with_stable BuyThenSkip n c e prices calories initial_machine
              Hv Hb initial_machine_fresh) as (b & Hiff & Hall).
  unfold solve. rewrite (Hall fuel Hfuel).
  split; intros Hf.
  - apply Hiff in Hf. subst b. reflexivity.
  - destruct b; [|reflexivity]. elim Hf. now apply Hiff.
Qed.

Lemma main_prints_answer_witness :
  (feasible 3 10 10 [5; 5; 1] [5; 5; 1] ->
   main (fuel_bound 3 10 10) [3; 10; 10; 5; 5; 5; 5; 1; 1; 42]
   = Exits ("Yes" ++ newline)%string 0) /\
  (~ feasible 3 10 10 [5; 5; 1] [5; 5; 1] ->
   main (fuel_bound 3 10 10) [3; 10; 10; 5; 5; 5; 5; 1; 1; 42]
   = Exits ("No" ++ newline)%string 0).
Proof.
  apply (main_prints_answer (fuel_bound 3 10 10) 3 10 10 [5; 5; 1] [5; 5; 1] [42]).
  - lia.
  - concrete_input.
  - split; repeat constructor; unfold INT_MAX; lia.
  - apply Nat.le_refl.
Defined.

(** X11. Whatever [main] writes is right: on a line [n c e] with [n >= 1]
    followed by the [n] pairs of a valid item list, however large the items,
    a run of [main] that exits has status 0 and has written the line Yes
    with a choice of items that meets both targets, or the line No with no
    such choice. *)
Theorem main_output_is_right fuel n c e prices calories trailing output status :
  1 <= n ->
  valid_input n c e prices calories ->
  main fuel (n :: c :: e :: interleave prices calories ++ trailing)
  = Exits output status ->
  status = 0 /\
  ((output = ("Yes" ++ newline)%string /\ feasible n c e prices calories) \/
   (output = ("No" ++ newline)%string /\ ~ feasible n c e prices calories)).
Proof.
  intros Hn Hv.
  rewrite main_runs_solve;
    [|exact Hn|apply (valid_prices_length _ _ _ _ _ Hv)
             |apply (valid_calories_length _ _ _ _ _ Hv)].
  destruct (solve fuel initial_machine n c e prices calories) as [b|f|] eqn:Hr;
    try discriminate.
  pose proof (solve_with_answer BuyThenSkip n c e prices calories
                initial_machine fuel b Hv initial_machine_fresh Hr) as Hiff.
  destruct b; intros E; injection E as <- <-; (split; [reflexivity|]).
  - left. split; [reflexivity|]. now apply Hiff.
  - right. split; [reflexivity|]. intros Hf. apply Hiff in Hf. discriminate.
Qed.

Lemma main_output_is_right_witness :
  0 = 0 /\
  ((("No" ++ newline)%string = ("Yes" ++ newline)%string /\
    feasible 2 3 3 [2; 2] [2; 2]) \/
   (("No" ++ newline)%string = ("No" ++ newline)%string /\
    ~ feasible 2 3 3 [2; 2] [2; 2])).
Proof.
  apply (main_output_is_right 20 2 3 3 [2; 2] [2; 2] []).
  - lia.
  - concrete_input.
  - vm_compute. reflexivity.
Defined.

End Program.
